(** * Reservation arbitration and lifecycle engine of the MCP EV charging server

    A shallow embedding of [models.py] and [main.py].

    - Pydantic models become records, one module per class so that the
      attribute names of the source ([status], [station_id], ...) are kept.
    - A [datetime] object is naive or timezone-aware.  The clocks the code
      reads ([datetime.now()], [datetime.utcnow()]) give naive values,
      modelled as [Z] (microseconds on the wall clock).  The two times of a
      request are whatever Pydantic parsed, naive or aware, and ordering an
      aware value against a naive one raises [TypeError], as in Python.
    - The two module-level lists [mock_stations_db] and [mock_sessions_db]
      form the store [DB].  A handler is a computation in the monad [M]:
      it receives the store, returns a value, the [HTTPException] it
      raised, or the Python exception that escaped it (which FastAPI
      answers with status 500), together with the store as it left it.
      Raising does not roll anything back, exactly as in Python.
    - Each call of [datetime.now()], [datetime.utcnow()] and [uuid.uuid4()]
      is a separate reading of the outside world; the readings of one
      handler call are gathered in an environment record passed to it. *)

From Stdlib Require Import ZArith List String Bool Lia PrimFloat.
Import ListNotations.
Local Open Scope string_scope.
Local Open Scope Z_scope.

Set Implicit Arguments.
Set Warnings "-inexact-float".

(* ===================================================================== *)
(** ** models.py *)
(* ===================================================================== *)

(** A [datetime] without tzinfo, as [datetime.now()] and
    [datetime.utcnow()] return it: a point on the wall clock. *)
Definition naive_datetime := Z.

(** A [datetime] object as a request body can carry it: naive, or
    timezone-aware and then given by its instant in UTC. *)
Inductive datetime : Type :=
| Naive (t : naive_datetime)
| Aware (utc : Z).

(** [a <= b] and [a >= b] on [datetime] objects: two naive values compare
    by wall clock, two aware values by instant, and a naive value cannot be
    ordered against an aware one ([None]: Python raises [TypeError]). *)
Definition datetime_le (a b : datetime) : option bool :=
  match a, b with
  | Naive x, Naive y => Some (x <=? y)
  | Aware x, Aware y => Some (x <=? y)
  | _, _ => None
  end.

Definition datetime_ge (a b : datetime) : option bool :=
  match a, b with
  | Naive x, Naive y => Some (x >=? y)
  | Aware x, Aware y => Some (x >=? y)
  | _, _ => None
  end.

(** The value of a [datetime] that is known to be naive. *)
Definition naive_of (a : datetime) : naive_datetime :=
  match a with
  | Naive t => t
  | Aware utc => utc
  end.

Module Connector.
Record t := mk {
  connector_id : string;
  type : string;
  power_kw : float;
  status : string
}.
Definition set_status (v : string) (c : t) : t :=
  mk (connector_id c) (type c) (power_kw c) v.
End Connector.

Module ChargingStation.
Record t := mk {
  name : string;
  location_coords : list float;
  address : string;
  owner : string;
  is_public : bool;
  connectors : list Connector.t;
  station_id : string;
  overall_status : string
}.
Definition set_connectors (v : list Connector.t) (s : t) : t :=
  mk (name s) (location_coords s) (address s) (owner s) (is_public s)
     v (station_id s) (overall_status s).
End ChargingStation.

Module ChargingSessionCreate.
Record t := mk {
  station_id : string;
  connector_id : string;
  user_id : string;
  start_time : datetime;
  expected_end_time : datetime
}.
End ChargingSessionCreate.

(** The times of a stored session are naive: the request's two times are
    stored only after checks 1 and 2 of [create_charging_session] have
    ordered them against naive values without raising, and every other time
    is a reading of [datetime.utcnow()]. *)
Module ChargingSession.
Record t := mk {
  station_id : string;
  connector_id : string;
  user_id : string;
  start_time : naive_datetime;
  expected_end_time : naive_datetime;
  session_id : string;
  actual_end_time : option naive_datetime;
  kwh_consumed : option float;
  cost : option float;
  status : string;
  created_at : naive_datetime;
  updated_at : naive_datetime
}.
Definition set_status (v : string) (s : t) : t :=
  mk (station_id s) (connector_id s) (user_id s) (start_time s)
     (expected_end_time s) (session_id s) (actual_end_time s)
     (kwh_consumed s) (cost s) v (created_at s) (updated_at s).
Definition set_start_time (v : naive_datetime) (s : t) : t :=
  mk (station_id s) (connector_id s) (user_id s) v
     (expected_end_time s) (session_id s) (actual_end_time s)
     (kwh_consumed s) (cost s) (status s) (created_at s) (updated_at s).
Definition set_updated_at (v : naive_datetime) (s : t) : t :=
  mk (station_id s) (connector_id s) (user_id s) (start_time s)
     (expected_end_time s) (session_id s) (actual_end_time s)
     (kwh_consumed s) (cost s) (status s) (created_at s) v.
Definition set_actual_end_time (v : option naive_datetime) (s : t) : t :=
  mk (station_id s) (connector_id s) (user_id s) (start_time s)
     (expected_end_time s) (session_id s) v
     (kwh_consumed s) (cost s) (status s) (created_at s) (updated_at s).
Definition set_kwh_consumed (v : option float) (s : t) : t :=
  mk (station_id s) (connector_id s) (user_id s) (start_time s)
     (expected_end_time s) (session_id s) (actual_end_time s)
     v (cost s) (status s) (created_at s) (updated_at s).
Definition set_cost (v : option float) (s : t) : t :=
  mk (station_id s) (connector_id s) (user_id s) (start_time s)
     (expected_end_time s) (session_id s) (actual_end_time s)
     (kwh_consumed s) v (status s) (created_at s) (updated_at s).
End ChargingSession.

(* ===================================================================== *)
(** ** The store and the handler monad *)
(* ===================================================================== *)

Record DB := mkDB {
  mock_stations_db : list ChargingStation.t;
  mock_sessions_db : list ChargingSession.t
}.

Record HTTPException := mkHTTPException {
  status_code : Z;
  detail : string
}.

Definition HTTP_400_BAD_REQUEST : Z := 400.
Definition HTTP_404_NOT_FOUND : Z := 404.
Definition HTTP_409_CONFLICT : Z := 409.

(** A Python exception other than [HTTPException]. *)
Inductive python_exception : Type :=
| TypeError (msg : string).

Inductive result (A : Type) : Type :=
| Ok (a : A)
| Raise (e : HTTPException)
| Uncaught (x : python_exception).
Arguments Ok {A} a.
Arguments Raise {A} e.
Arguments Uncaught {A} x.

Definition M (A : Type) : Type := DB -> result A * DB.

Definition ret {A} (a : A) : M A := fun db => (Ok a, db).
Definition raise {A} (e : HTTPException) : M A := fun db => (Raise e, db).
Definition uncaught {A} (x : python_exception) : M A :=
  fun db => (Uncaught x, db).
Definition bind {A B} (m : M A) (k : A -> M B) : M B :=
  fun db =>
    match m db with
    | (Ok a, db') => k a db'
    | (Raise e, db') => (Raise e, db')
    | (Uncaught x, db') => (Uncaught x, db')
    end.

Definition cannot_compare : python_exception :=
  TypeError "can't compare offset-naive and offset-aware datetimes".

(** A comparison made by a handler. *)
Definition ordered (c : option bool) : M bool :=
  match c with
  | Some b => ret b
  | None => uncaught cannot_compare
  end.
Definition get_stations : M (list ChargingStation.t) :=
  fun db => (Ok (mock_stations_db db), db).
Definition get_sessions : M (list ChargingSession.t) :=
  fun db => (Ok (mock_sessions_db db), db).
Definition put_stations (v : list ChargingStation.t) : M unit :=
  fun db => (Ok tt, mkDB v (mock_sessions_db db)).
Definition put_sessions (v : list ChargingSession.t) : M unit :=
  fun db => (Ok tt, mkDB (mock_stations_db db) v).

Declare Scope handler_scope.
Delimit Scope handler_scope with handler.
Notation "x <- m ;; k" := (bind m (fun x => k))
  (at level 100, m at next level, right associativity) : handler_scope.
Notation "m ;; k" := (bind m (fun _ => k))
  (at level 100, right associativity) : handler_scope.

(* ===================================================================== *)
(** ** main.py *)
(* ===================================================================== *)

(** [x in ["reserved", "in_progress"]] *)
Definition active_status (st : string) : bool :=
  (st =? "reserved")%string || (st =? "in_progress")%string.

(** The initial contents of the two module-level lists. *)
Definition seed_stations : list ChargingStation.t :=
  [ ChargingStation.mk "Downtown Fast Charger" [34.0522%float; (-118.2437)%float]
      "123 Main St, Anytown" "EVChargeCo" true
      [ Connector.mk "C-001-1" "CCS1" 50.0%float "available";
        Connector.mk "C-001-2" "J1772" 7.2%float "available" ]
      "STN-001" "active";
    ChargingStation.mk "Parkside L2 Chargers" [34.0722%float; (-118.2537)%float]
      "456 Oak Ave, Anytown" "CityPower" true
      [ Connector.mk "C-002-1" "J1772" 7.2%float "available";
        Connector.mk "C-002-2" "J1772" 7.2%float "available" ]
      "STN-002" "active" ].

Definition initial_db : DB := mkDB seed_stations [].

(** The loop of [check_connector_availability]: the first session of the
    pair that is reserved or in progress and overlaps the window makes the
    function return [False]. *)
Fixpoint availability_scan (sessions : list ChargingSession.t)
    (station_id connector_id : string) (start_time end_time : naive_datetime) : bool :=
  match sessions with
  | [] => true
  | existing_session :: rest =>
      if (ChargingSession.station_id existing_session =? station_id)%string
         && (ChargingSession.connector_id existing_session =? connector_id)%string
         && active_status (ChargingSession.status existing_session)
      then
        if negb ((end_time <=? ChargingSession.start_time existing_session)
                 || (start_time >=? ChargingSession.expected_end_time existing_session))
        then false
        else availability_scan rest station_id connector_id start_time end_time
      else availability_scan rest station_id connector_id start_time end_time
  end.

Definition check_connector_availability
    (station_id connector_id : string) (start_time end_time : naive_datetime) : M bool :=
  (sessions <- get_sessions ;;
   ret (availability_scan sessions station_id connector_id start_time end_time))%handler.

(** In-place update of the first element satisfying [p]: the object that
    [next((x for x in l if p(x)), None)] returns, or that a loop leaving
    with [break] at its first hit reaches, is mutated where it sits. *)
Fixpoint update_first {A} (p : A -> bool) (f : A -> A) (l : list A) : list A :=
  match l with
  | [] => []
  | x :: rest => if p x then f x :: rest else x :: update_first p f rest
  end.

Definition is_station (station_id : string) (s : ChargingStation.t) : bool :=
  (ChargingStation.station_id s =? station_id)%string.
Definition is_connector (connector_id : string) (c : Connector.t) : bool :=
  (Connector.connector_id c =? connector_id)%string.
Definition is_session (session_id : string) (s : ChargingSession.t) : bool :=
  (ChargingSession.session_id s =? session_id)%string.

(** [connector.status = v] on the first connector named [connector_id] of
    the first station named [station_id]; nothing happens when either is
    missing (both loops simply run out). *)
Definition set_connector_status (stations : list ChargingStation.t)
    (station_id connector_id v : string) : list ChargingStation.t :=
  update_first (is_station station_id)
    (fun station =>
       ChargingStation.set_connectors
         (update_first (is_connector connector_id) (Connector.set_status v)
            (ChargingStation.connectors station))
         station)
    stations.

Definition mark_connector (station_id connector_id v : string) : M unit :=
  (stations <- get_stations ;;
   put_stations (set_connector_status stations station_id connector_id v))%handler.

(** Readings of the outside world made by one call of each handler, in the
    order in which the code makes them. *)
Record CreateEnv := mkCreateEnv {
  now : naive_datetime;                 (* datetime.now(), check 1 *)
  uuid4 : string;                 (* str(uuid.uuid4()) *)
  utcnow_created_at : naive_datetime;   (* created_at=datetime.utcnow() *)
  utcnow_updated_at : naive_datetime    (* updated_at=datetime.utcnow() *)
}.
Record StartEnv := mkStartEnv {
  start_utcnow_start_time : naive_datetime;
  start_utcnow_updated_at : naive_datetime
}.
Record EndEnv := mkEndEnv {
  end_utcnow_actual_end_time : naive_datetime;
  end_utcnow_updated_at : naive_datetime
}.
Record CancelEnv := mkCancelEnv {
  cancel_utcnow_updated_at : naive_datetime
}.

Definition err_past : HTTPException :=
  mkHTTPException HTTP_400_BAD_REQUEST "Cannot reserve a session in the past.".
Definition err_window : HTTPException :=
  mkHTTPException HTTP_400_BAD_REQUEST "Start time must be before end time.".
Definition err_station (station_id : string) : HTTPException :=
  mkHTTPException HTTP_404_NOT_FOUND
    ("Charging station with ID '" ++ station_id ++ "' not found.").
Definition err_connector (station_id connector_id : string) : HTTPException :=
  mkHTTPException HTTP_404_NOT_FOUND
    ("Connector with ID '" ++ connector_id ++ "' not found at station '"
       ++ station_id ++ "'.").
Definition err_connector_state (connector_id st : string) : HTTPException :=
  mkHTTPException HTTP_409_CONFLICT
    ("Connector " ++ connector_id ++ " is currently " ++ st ++ ".").
Definition err_overlap (station_id connector_id : string) : HTTPException :=
  mkHTTPException HTTP_409_CONFLICT
    ("Connector " ++ connector_id ++ " at " ++ station_id
       ++ " is not available during the requested time.").
Definition err_session_not_found : HTTPException :=
  mkHTTPException HTTP_404_NOT_FOUND "Session not found.".
Definition err_not_reserved : HTTPException :=
  mkHTTPException HTTP_400_BAD_REQUEST "Session is not in 'reserved' status.".
Definition err_not_in_progress : HTTPException :=
  mkHTTPException HTTP_400_BAD_REQUEST "Session is not in 'in_progress' status.".
Definition err_not_cancellable : HTTPException :=
  mkHTTPException HTTP_400_BAD_REQUEST
    "Only 'reserved' sessions can be cancelled via this endpoint.".

(** [ChargingSession(session_id=..., **session_data.dict(), status="reserved",
    created_at=..., updated_at=...)]; the optional fields keep their
    defaults. *)
Definition new_session_of (env : CreateEnv) (session_data : ChargingSessionCreate.t)
    : ChargingSession.t :=
  ChargingSession.mk
    (ChargingSessionCreate.station_id session_data)
    (ChargingSessionCreate.connector_id session_data)
    (ChargingSessionCreate.user_id session_data)
    (naive_of (ChargingSessionCreate.start_time session_data))
    (naive_of (ChargingSessionCreate.expected_end_time session_data))
    (uuid4 env) None None None "reserved"
    (utcnow_created_at env) (utcnow_updated_at env).

(** POST /sessions *)
Definition create_charging_session (env : CreateEnv)
    (session_data : ChargingSessionCreate.t) : M ChargingSession.t :=
  let station_id := ChargingSessionCreate.station_id session_data in
  let connector_id := ChargingSessionCreate.connector_id session_data in
  let start_time := ChargingSessionCreate.start_time session_data in
  let expected_end_time := ChargingSessionCreate.expected_end_time session_data in
  (past <- ordered (datetime_le expected_end_time (Naive (now env))) ;;
   if past then raise err_past else
   inverted <- ordered (datetime_ge start_time expected_end_time) ;;
   if inverted then raise err_window else
   stations <- get_stations ;;
   match find (is_station station_id) stations with
   | None => raise (err_station station_id)
   | Some target_station =>
     match find (is_connector connector_id)
                (ChargingStation.connectors target_station) with
     | None => raise (err_connector station_id connector_id)
     | Some target_connector =>
       if negb (Connector.status target_connector =? "available")%string
       then raise (err_connector_state connector_id
                     (Connector.status target_connector))
       else
       free <- check_connector_availability station_id connector_id
                 (naive_of start_time) (naive_of expected_end_time) ;;
       if negb free then raise (err_overlap station_id connector_id) else
       let new_session := new_session_of env session_data in
       sessions <- get_sessions ;;
       put_sessions (sessions ++ [new_session]) ;;
       mark_connector station_id connector_id "reserved" ;;
       ret new_session
     end
   end)%handler.

(** GET /sessions/user/{user_id} *)
Definition get_user_sessions (user_id : string) : M (list ChargingSession.t) :=
  (sessions <- get_sessions ;;
   ret (filter (fun s => (ChargingSession.user_id s =? user_id)%string
                         && active_status (ChargingSession.status s))
               sessions))%handler.

(** The three assignments of [start_charging_session] on the session object. *)
Definition started (env : StartEnv) (s : ChargingSession.t) : ChargingSession.t :=
  ChargingSession.set_updated_at (start_utcnow_updated_at env)
    (ChargingSession.set_start_time (start_utcnow_start_time env)
       (ChargingSession.set_status "in_progress" s)).

(** PUT /sessions/{session_id}/start *)
Definition start_charging_session (env : StartEnv) (session_id : string)
    : M ChargingSession.t :=
  (sessions <- get_sessions ;;
   match find (is_session session_id) sessions with
   | None => raise err_session_not_found
   | Some session =>
     if negb (ChargingSession.status session =? "reserved")%string
     then raise err_not_reserved else
     put_sessions (update_first (is_session session_id) (started env) sessions) ;;
     mark_connector (ChargingSession.station_id session)
                    (ChargingSession.connector_id session) "occupied" ;;
     ret (started env session)
   end)%handler.

(** The five assignments of [end_charging_session] on the session object. *)
Definition ended (env : EndEnv) (kwh_consumed cost : float)
    (s : ChargingSession.t) : ChargingSession.t :=
  ChargingSession.set_updated_at (end_utcnow_updated_at env)
    (ChargingSession.set_cost (Some cost)
       (ChargingSession.set_kwh_consumed (Some kwh_consumed)
          (ChargingSession.set_actual_end_time
             (Some (end_utcnow_actual_end_time env))
             (ChargingSession.set_status "completed" s)))).

(** PUT /sessions/{session_id}/end *)
Definition end_charging_session (env : EndEnv) (session_id : string)
    (kwh_consumed cost : float) : M ChargingSession.t :=
  (sessions <- get_sessions ;;
   match find (is_session session_id) sessions with
   | None => raise err_session_not_found
   | Some session =>
     if negb (ChargingSession.status session =? "in_progress")%string
     then raise err_not_in_progress else
     put_sessions
       (update_first (is_session session_id) (ended env kwh_consumed cost)
          sessions) ;;
     mark_connector (ChargingSession.station_id session)
                    (ChargingSession.connector_id session) "available" ;;
     ret (ended env kwh_consumed cost session)
   end)%handler.

(** The two assignments of [cancel_charging_session] on [mock_sessions_db[i]]. *)
Definition cancelled (env : CancelEnv) (s : ChargingSession.t) : ChargingSession.t :=
  ChargingSession.set_updated_at (cancel_utcnow_updated_at env)
    (ChargingSession.set_status "cancelled" s).

(** The [for i, session in enumerate(mock_sessions_db)] loop of
    [cancel_charging_session].  It stops at the first session with the id:
    a reserved one is cancelled in place ([break]), any other one makes the
    handler raise; running out of sessions leaves [session_found] false. *)
Inductive cancel_scan_result : Type :=
| CancelDone (sessions' : list ChargingSession.t) (session : ChargingSession.t)
| CancelRejected
| CancelMissing.

Fixpoint cancel_scan (env : CancelEnv) (session_id : string)
    (sessions : list ChargingSession.t) : cancel_scan_result :=
  match sessions with
  | [] => CancelMissing
  | session :: rest =>
      if (ChargingSession.session_id session =? session_id)%string then
        if (ChargingSession.status session =? "reserved")%string
        then CancelDone (cancelled env session :: rest) (cancelled env session)
        else CancelRejected
      else
        match cancel_scan env session_id rest with
        | CancelDone rest' s => CancelDone (session :: rest') s
        | CancelRejected => CancelRejected
        | CancelMissing => CancelMissing
        end
  end.

(** DELETE /sessions/{session_id} *)
Definition cancel_charging_session (env : CancelEnv) (session_id : string)
    : M unit :=
  (sessions <- get_sessions ;;
   match cancel_scan env session_id sessions with
   | CancelDone sessions' session =>
       put_sessions sessions' ;;
       mark_connector (ChargingSession.station_id session)
                      (ChargingSession.connector_id session) "available" ;;
       ret tt
   | CancelRejected => raise err_not_cancellable
   | CancelMissing => raise err_session_not_found
   end)%handler.

(* ===================================================================== *)
(** ** Runs of the server *)
(* ===================================================================== *)

(** One request to a mutating endpoint, with the readings its handler makes. *)
Inductive request : Type :=
| Reserve (env : CreateEnv) (session_data : ChargingSessionCreate.t)
| Start (env : StartEnv) (session_id : string)
| End_ (env : EndEnv) (session_id : string) (kwh_consumed cost : float)
| Cancel (env : CancelEnv) (session_id : string).

(** The store after serving a request (whether it succeeded or not). *)
Definition serve (r : request) (db : DB) : DB :=
  match r with
  | Reserve env d => snd (create_charging_session env d db)
  | Start env id => snd (start_charging_session env id db)
  | End_ env id k c => snd (end_charging_session env id k c db)
  | Cancel env id => snd (cancel_charging_session env id db)
  end.

(** Stores reachable from the freshly started process, requests being
    served one after the other. *)
Inductive reachable : DB -> Prop :=
| reachable_init : reachable initial_db
| reachable_step r db : reachable db -> reachable (serve r db).

(** Requests served one after the other. *)
Fixpoint serve_all (rs : list request) (db : DB) : DB :=
  match rs with
  | [] => db
  | r :: rest => serve_all rest (serve r db)
  end.

(** The answer to a request, without the value returned: accepted,
    rejected with an [HTTPException], or crashed with an exception that
    escaped the handler. *)
Inductive answer : Type :=
| Accepted
| Rejected (e : HTTPException)
| Crashed (x : python_exception).

Definition answer_of {A} (r : result A) : answer :=
  match r with
  | Ok _ => Accepted
  | Raise e => Rejected e
  | Uncaught x => Crashed x
  end.

Definition respond (r : request) (db : DB) : answer :=
  match r with
  | Reserve env d => answer_of (fst (create_charging_session env d db))
  | Start env id => answer_of (fst (start_charging_session env id db))
  | End_ env id k c => answer_of (fst (end_charging_session env id k c db))
  | Cancel env id => answer_of (fst (cancel_charging_session env id db))
  end.

(** The values [uuid.uuid4()] returned in the course of a run, in order:
    one for each accepted reserve request, since the call is made only
    once the six checks are passed. *)
Fixpoint issued_ids (rs : list request) (db : DB) : list string :=
  match rs with
  | [] => []
  | r :: rest =>
      match r, respond r db with
      | Reserve env _, Accepted => uuid4 env :: issued_ids rest (serve r db)
      | _, _ => issued_ids rest (serve r db)
      end
  end.

(** Lookups used to state the properties. *)
Definition connector_status (db : DB) (station_id connector_id : string)
    : option string :=
  match find (is_station station_id) (mock_stations_db db) with
  | None => None
  | Some station =>
      match find (is_connector connector_id) (ChargingStation.connectors station) with
      | None => None
      | Some c => Some (Connector.status c)
      end
  end.

Definition session_status (db : DB) (session_id : string) : option string :=
  match find (is_session session_id) (mock_sessions_db db) with
  | None => None
  | Some s => Some (ChargingSession.status s)
  end.

(* ===================================================================== *)
(** ** General facts: strings, [find] and [update_first] *)
(* ===================================================================== *)

Lemma active_status_iff st :
  active_status st = true <-> st = "reserved" \/ st = "in_progress".
Proof.
  unfold active_status. rewrite orb_true_iff, !String.eqb_eq. tauto.
Qed.

Lemma append_cancel_l (p a b : string) : (p ++ a = p ++ b)%string -> a = b.
Proof.
  induction p as [|c p IH]; simpl; intros H; [exact H|].
  injection H as H. auto.
Qed.

Section UpdateFirst.
Context {A : Type} (p : A -> bool) (f : A -> A).

Lemma update_first_absent l : find p l = None -> update_first p f l = l.
Proof.
  induction l as [|x l IH]; simpl; [reflexivity|].
  destruct (p x); [discriminate|]. intros H. now rewrite IH.
Qed.

Lemma update_first_length l : List.length (update_first p f l) = List.length l.
Proof.
  induction l as [|x l IH]; simpl; [reflexivity|].
  destruct (p x); simpl; congruence.
Qed.

(** The updated element is still the first hit when [f] keeps it a hit. *)
Lemma find_update_first_same l x :
  find p l = Some x -> p (f x) = true ->
  find p (update_first p f l) = Some (f x).
Proof.
  induction l as [|y l IH]; simpl; [discriminate|].
  destruct (p y) eqn:E; intros H Hf.
  - injection H as ->. simpl. now rewrite Hf.
  - simpl. rewrite E. auto.
Qed.

(** A search that ignores both the old and the new version of the updated
    element sees no difference. *)
Lemma find_update_first_other (q : A -> bool) l :
  (forall x, find p l = Some x -> q x = false /\ q (f x) = false) ->
  find q (update_first p f l) = find q l.
Proof.
  induction l as [|y l IH]; simpl; [reflexivity|].
  destruct (p y) eqn:E; intros H.
  - destruct (H y eq_refl) as [H1 H2]. simpl. now rewrite H1, H2.
  - simpl. destruct (q y); [reflexivity|]. auto.
Qed.

Lemma filter_update_first_keep (q : A -> bool) l :
  (forall x, find p l = Some x -> q (f x) = q x) ->
  List.length (filter q (update_first p f l)) = List.length (filter q l).
Proof.
  induction l as [|y l IH]; simpl; [reflexivity|].
  destruct (p y) eqn:E; intros H.
  - simpl. rewrite (H y eq_refl). destruct (q y); reflexivity.
  - simpl. destruct (q y); simpl; auto.
Qed.

Lemma filter_update_first_drop (q : A -> bool) l x :
  find p l = Some x -> q x = true -> q (f x) = false ->
  S (List.length (filter q (update_first p f l))) = List.length (filter q l).
Proof.
  induction l as [|y l IH]; simpl; [discriminate|].
  destruct (p y) eqn:E; intros H Hq Hf.
  - injection H as ->. simpl. now rewrite Hq, Hf.
  - simpl. destruct (q y); simpl; auto.
Qed.

Lemma Forall_update_first (P : A -> Prop) l :
  (forall x, P x -> P (f x)) -> Forall P l -> Forall P (update_first p f l).
Proof.
  intros Hf. induction 1 as [|y l Hy Hl IH]; simpl; [constructor|].
  destruct (p y); constructor; auto.
Qed.
End UpdateFirst.

Lemma map_update_first {A B} (g : A -> B) (p : A -> bool) (f : A -> A) l :
  (forall x, g (f x) = g x) -> map g (update_first p f l) = map g l.
Proof.
  intros H. induction l as [|x l IH]; simpl; [reflexivity|].
  destruct (p x); simpl; congruence.
Qed.

(* ===================================================================== *)
(** ** The availability check *)
(* ===================================================================== *)

(** Session [s] blocks the window [[start_time, end_time)] on the pair. *)
Definition blocks (station_id connector_id : string)
    (start_time end_time : naive_datetime) (s : ChargingSession.t) : Prop :=
  ChargingSession.station_id s = station_id /\
  ChargingSession.connector_id s = connector_id /\
  (ChargingSession.status s = "reserved" \/
   ChargingSession.status s = "in_progress") /\
  ~ (end_time <= ChargingSession.start_time s \/
     start_time >= ChargingSession.expected_end_time s).

Lemma availability_scan_false sessions station_id connector_id start_time end_time :
  availability_scan sessions station_id connector_id start_time end_time = false
  <-> exists s, In s sessions /\
                blocks station_id connector_id start_time end_time s.
Proof.
  unfold blocks.
  induction sessions as [|x l IH]; simpl.
  - split; [discriminate|]. intros (s & [] & _).
  - destruct ((ChargingSession.station_id x =? station_id)%string) eqn:E1;
    destruct ((ChargingSession.connector_id x =? connector_id)%string) eqn:E2;
    destruct (active_status (ChargingSession.status x)) eqn:E3; simpl;
    try (rewrite IH; split;
         [ intros (s & Hs & H); exists s; tauto
         | intros (s & [<-|Hs] & H1 & H2 & H3 & H4);
           [ try (apply String.eqb_neq in E1; tauto);
             try (apply String.eqb_neq in E2; tauto);
             apply active_status_iff in H3; congruence
           | exists s; tauto ] ]).
    apply String.eqb_eq in E1, E2. apply active_status_iff in E3.
    destruct (end_time <=? ChargingSession.start_time x) eqn:E4;
    destruct (start_time >=? ChargingSession.expected_end_time x) eqn:E5; simpl;
    try (rewrite IH; split;
         [ intros (s & Hs & H); exists s; tauto
         | intros (s & [<-|Hs] & H1 & H2 & H3 & H4);
           [ exfalso; apply H4; lia | exists s; tauto ] ]).
    split; [intros _|reflexivity].
    exists x. repeat split; auto. lia.
Qed.

(** C1.  [check_connector_availability] returns [False] exactly when some
    session of the ledger on the same (station_id, connector_id) pair, with
    status 'reserved' or 'in_progress', has a window
    [[start_time, expected_end_time)] that overlaps the requested one, where
    two windows do not overlap exactly when
    [end <= other.start_time or start >= other.expected_end_time]; and the
    store after the call is the store before it. *)
Theorem check_connector_availability_spec
    (db : DB) (station_id connector_id : string) (start_time end_time : naive_datetime) :
  exists b : bool,
    check_connector_availability station_id connector_id start_time end_time db
      = (Ok b, db)
    /\ (b = false <->
        exists s, In s (mock_sessions_db db) /\
                  blocks station_id connector_id start_time end_time s).
Proof.
  eexists. split; [reflexivity|]. apply availability_scan_false.
Qed.

(* ===================================================================== *)
(** ** Reserve: the validation cascade *)
(* ===================================================================== *)

(** The six checks of [create_charging_session], in the order of the code. *)
Inductive reserve_check : Type :=
| CheckPast | CheckWindow | CheckStation | CheckConnector | CheckState
| CheckOverlap.

Definition check_rank (k : reserve_check) : nat :=
  match k with
  | CheckPast => 1 | CheckWindow => 2 | CheckStation => 3
  | CheckConnector => 4 | CheckState => 5 | CheckOverlap => 6
  end.

(** What it means for a check to fail on a request, taken by itself: the
    condition of its [if] evaluates to true. *)
Definition fails (k : reserve_check) (env : CreateEnv)
    (d : ChargingSessionCreate.t) (db : DB) : Prop :=
  let station_id := ChargingSessionCreate.station_id d in
  let connector_id := ChargingSessionCreate.connector_id d in
  match k with
  | CheckPast =>
      datetime_le (ChargingSessionCreate.expected_end_time d) (Naive (now env))
      = Some true
  | CheckWindow =>
      datetime_ge (ChargingSessionCreate.start_time d)
        (ChargingSessionCreate.expected_end_time d) = Some true
  | CheckStation => find (is_station station_id) (mock_stations_db db) = None
  | CheckConnector =>
      exists station,
        find (is_station station_id) (mock_stations_db db) = Some station /\
        find (is_connector connector_id) (ChargingStation.connectors station)
          = None
  | CheckState =>
      exists st, connector_status db station_id connector_id = Some st /\
                 st <> "available"
  | CheckOverlap =>
      fst (check_connector_availability station_id connector_id
             (naive_of (ChargingSessionCreate.start_time d))
             (naive_of (ChargingSessionCreate.expected_end_time d)) db)
      = Ok false
  end.

(** What it means for a check to break: evaluating its condition raises
    [TypeError].  Only the two comparisons of request times can. *)
Definition breaks (k : reserve_check) (env : CreateEnv)
    (d : ChargingSessionCreate.t) : Prop :=
  match k with
  | CheckPast =>
      datetime_le (ChargingSessionCreate.expected_end_time d) (Naive (now env))
      = None
  | CheckWindow =>
      datetime_ge (ChargingSessionCreate.start_time d)
        (ChargingSessionCreate.expected_end_time d) = None
  | _ => False
  end.

(** A check passes when its condition evaluates, and to false. *)
Definition passes (k : reserve_check) (env : CreateEnv)
    (d : ChargingSessionCreate.t) (db : DB) : Prop :=
  ~ fails k env d db /\ ~ breaks k env d.

(** The exception each check raises. *)
Definition check_error (k : reserve_check) (d : ChargingSessionCreate.t)
    (db : DB) : HTTPException :=
  let station_id := ChargingSessionCreate.station_id d in
  let connector_id := ChargingSessionCreate.connector_id d in
  match k with
  | CheckPast => err_past
  | CheckWindow => err_window
  | CheckStation => err_station station_id
  | CheckConnector => err_connector station_id connector_id
  | CheckState =>
      err_connector_state connector_id
        (match connector_status db station_id connector_id with
         | Some st => st
         | None => ""
         end)
  | CheckOverlap => err_overlap station_id connector_id
  end.


Definition passes_all (env : CreateEnv) (d : ChargingSessionCreate.t)
    (db : DB) : Prop :=
  forall k, passes k env d db.


Section ReserveChecks.
Variables (env : CreateEnv) (d : ChargingSessionCreate.t) (db : DB).
Let station_id := ChargingSessionCreate.station_id d.
Let connector_id := ChargingSessionCreate.connector_id d.

(** Check 1 passes: expected_end_time is naive and after now. *)
Lemma pass_past :
  passes CheckPast env d db ->
  exists e,
    ChargingSessionCreate.expected_end_time d = Naive e /\ now env < e.
Proof.
  unfold passes, fails, breaks. intros [H1 H2].
  destruct (ChargingSessionCreate.expected_end_time d) as [e|u]; simpl in *;
    [|now destruct H2].
  exists e. split; [reflexivity|].
  destruct (Z.leb_spec e (now env)); [now destruct H1 | assumption].
Qed.

(** Checks 1 and 2 pass: both times are naive and form a window that ends
    after now. *)
Lemma pass_window :
  passes CheckPast env d db ->
  passes CheckWindow env d db ->
  exists s e,
    ChargingSessionCreate.start_time d = Naive s
    /\ ChargingSessionCreate.expected_end_time d = Naive e
    /\ now env < e /\ s < e.
Proof.
  intros H1 H2. destruct (pass_past H1) as (e & He & Hnow).
  unfold passes, fails, breaks in H2. rewrite He in H2. destruct H2 as [H2 H3].
  destruct (ChargingSessionCreate.start_time d) as [s|u]; simpl in *;
    [|now destruct H3].
  exists s, e. repeat split; try assumption.
  rewrite Z.geb_leb in H2.
  destruct (Z.leb_spec e s); [now destruct H2 | assumption].
Qed.

Lemma pass_station :
  passes CheckStation env d db ->
  exists station,
    find (is_station station_id) (mock_stations_db db) = Some station.
Proof.
  unfold passes. simpl. fold station_id. intros [H _].
  destruct (find (is_station station_id) (mock_stations_db db)); eauto.
  now destruct H.
Qed.

Lemma pass_connector station :
  find (is_station station_id) (mock_stations_db db) = Some station ->
  passes CheckConnector env d db ->
  exists c, find (is_connector connector_id)
              (ChargingStation.connectors station) = Some c.
Proof.
  unfold passes. simpl. fold station_id connector_id. intros Hs [H _].
  destruct (find (is_connector connector_id) _) eqn:E; eauto.
  destruct H. eauto.
Qed.

Lemma pass_state station c :
  find (is_station station_id) (mock_stations_db db) = Some station ->
  find (is_connector connector_id) (ChargingStation.connectors station)
    = Some c ->
  passes CheckState env d db ->
  Connector.status c = "available".
Proof.
  unfold passes. simpl. fold station_id connector_id. unfold connector_status.
  intros -> -> [H _].
  destruct (String.eqb_spec (Connector.status c) "available"); auto.
  destruct H. eauto.
Qed.

Lemma pass_overlap :
  passes CheckOverlap env d db ->
  availability_scan (mock_sessions_db db) station_id connector_id
    (naive_of (ChargingSessionCreate.start_time d))
    (naive_of (ChargingSessionCreate.expected_end_time d)) = true.
Proof.
  unfold passes, fails, check_connector_availability, bind, get_sessions, ret.
  cbn [fst]. fold station_id connector_id. intros [H _].
  destruct (availability_scan _ _ _ _ _); [reflexivity|].
  now destruct H.
Qed.
End ReserveChecks.

Lemma check_errors_distinct (d : ChargingSessionCreate.t) (db : DB)
    (k k' : reserve_check) :
  k' <> k -> check_error k' d db <> check_error k d db.
Proof.
  intros Hk H.
  destruct k, k'; try (now destruct Hk);
    cbv [check_error err_past err_window err_station err_connector
         err_connector_state err_overlap HTTP_400_BAD_REQUEST
         HTTP_404_NOT_FOUND HTTP_409_CONFLICT] in H;
    try discriminate H;
    injection H as H; simpl in H; try discriminate H.
  all: repeat match goal with
       | H : String _ _ = String _ _ |- _ => injection H as H
       end.
  all: apply append_cancel_l in H; discriminate H.
Qed.

(* ===================================================================== *)
(** ** How the handlers run *)
(* ===================================================================== *)

Lemma reachable_serve_all rs db : reachable db -> reachable (serve_all rs db).
Proof.
  revert db. induction rs as [|r rs IH]; simpl; intros db H; [assumption|].
  apply IH. now apply reachable_step.
Qed.

Lemma is_session_started env id s :
  is_session id (started env s) = is_session id s.
Proof. reflexivity. Qed.

Lemma is_session_ended env k c id s :
  is_session id (ended env k c s) = is_session id s.
Proof. reflexivity. Qed.

Lemma is_session_cancelled env id s :
  is_session id (cancelled env s) = is_session id s.
Proof. reflexivity. Qed.

(** The loop of [cancel_charging_session] acts on the first session with
    the id, like the [next(...)] of the other two handlers. *)
Lemma cancel_scan_find env id sessions :
  cancel_scan env id sessions =
  match find (is_session id) sessions with
  | None => CancelMissing
  | Some s =>
      if (ChargingSession.status s =? "reserved")%string
      then CancelDone (update_first (is_session id) (cancelled env) sessions)
                      (cancelled env s)
      else CancelRejected
  end.
Proof.
  induction sessions as [|x l IH]; simpl; [reflexivity|].
  unfold is_session at 1 3.
  destruct ((ChargingSession.session_id x =? id)%string); [reflexivity|].
  rewrite IH. destruct (find (is_session id) l) as [s|]; [|reflexivity].
  now destruct ((ChargingSession.status s =? "reserved")%string).
Qed.

Lemma start_run env id db :
  start_charging_session env id db =
  match find (is_session id) (mock_sessions_db db) with
  | None => (Raise err_session_not_found, db)
  | Some s =>
      if (ChargingSession.status s =? "reserved")%string
      then (Ok (started env s),
            mkDB (set_connector_status (mock_stations_db db)
                    (ChargingSession.station_id s)
                    (ChargingSession.connector_id s) "occupied")
                 (update_first (is_session id) (started env)
                    (mock_sessions_db db)))
      else (Raise err_not_reserved, db)
  end.
Proof.
  unfold start_charging_session, bind, get_sessions.
  destruct (find (is_session id) (mock_sessions_db db)) as [s|]; [|reflexivity].
  now destruct ((ChargingSession.status s =? "reserved")%string).
Qed.

Lemma end_run env id k c db :
  end_charging_session env id k c db =
  match find (is_session id) (mock_sessions_db db) with
  | None => (Raise err_session_not_found, db)
  | Some s =>
      if (ChargingSession.status s =? "in_progress")%string
      then (Ok (ended env k c s),
            mkDB (set_connector_status (mock_stations_db db)
                    (ChargingSession.station_id s)
                    (ChargingSession.connector_id s) "available")
                 (update_first (is_session id) (ended env k c)
                    (mock_sessions_db db)))
      else (Raise err_not_in_progress, db)
  end.
Proof.
  unfold end_charging_session, bind, get_sessions.
  destruct (find (is_session id) (mock_sessions_db db)) as [s|]; [|reflexivity].
  now destruct ((ChargingSession.status s =? "in_progress")%string).
Qed.

Lemma cancel_run env id db :
  cancel_charging_session env id db =
  match find (is_session id) (mock_sessions_db db) with
  | None => (Raise err_session_not_found, db)
  | Some s =>
      if (ChargingSession.status s =? "reserved")%string
      then (Ok tt,
            mkDB (set_connector_status (mock_stations_db db)
                    (ChargingSession.station_id s)
                    (ChargingSession.connector_id s) "available")
                 (update_first (is_session id) (cancelled env)
                    (mock_sessions_db db)))
      else (Raise err_not_cancellable, db)
  end.
Proof.
  unfold cancel_charging_session, bind, get_sessions.
  rewrite cancel_scan_find.
  destruct (find (is_session id) (mock_sessions_db db)) as [s|]; [|reflexivity].
  now destruct ((ChargingSession.status s =? "reserved")%string).
Qed.

(** Closes the side goals about single checks once the facts gathered
    along the cascade are in the context. *)
Ltac cascade_side :=
  unfold passes, fails, breaks; simpl;
  repeat match goal with
         | H : ChargingSessionCreate.expected_end_time _ = _ |- _ =>
             rewrite H; clear H
         | H : ChargingSessionCreate.start_time _ = _ |- _ =>
             rewrite H; clear H
         end;
  simpl; rewrite ?Z.geb_leb;
  repeat match goal with
         | H : (_ <=? _) = _ |- _ => rewrite H; clear H
         end;
  try lia; try congruence;
  try (split; unfold not; intros;
       repeat match goal with
       | H : exists _, _ |- _ => destruct H as (? & ? & ?)
       end;
       try lia; congruence).

(** How a reserve request runs.  Either the cascade stops at some check
    [k], every check before it having passed: check [k] fails and the
    request is answered with its exception, or (checks 1 and 2 only) it
    breaks and [TypeError] escapes; the store is the one before the call.
    Or all six checks pass, the session is appended and the connector
    marked. *)
Lemma create_run env d db :
  (exists k,
      (forall j, (check_rank j < check_rank k)%nat -> passes j env d db)
      /\ ((fails k env d db
           /\ create_charging_session env d db
              = (Raise (check_error k d db), db))
          \/ (breaks k env d
              /\ create_charging_session env d db
                 = (Uncaught cannot_compare, db))))
  \/
  (passes_all env d db /\
   create_charging_session env d db =
     (Ok (new_session_of env d),
      mkDB (set_connector_status (mock_stations_db db)
              (ChargingSessionCreate.station_id d)
              (ChargingSessionCreate.connector_id d) "reserved")
           (mock_sessions_db db ++ [new_session_of env d]))).
Proof.
  unfold passes_all, create_charging_session, bind, get_stations, ordered,
    ret, raise, uncaught.
  destruct (ChargingSessionCreate.expected_end_time d) as [e|u] eqn:Ee; simpl.
  2:{ left. exists CheckPast. split; [intros j; destruct j; simpl; lia|].
      right. split; [cascade_side | reflexivity]. }
  destruct (e <=? now env) eqn:H1.
  { left. exists CheckPast. split; [intros j; destruct j; simpl; lia|].
    left. split; [cascade_side | reflexivity]. }
  destruct (ChargingSessionCreate.start_time d) as [s|u] eqn:Es; simpl.
  2:{ left. exists CheckWindow.
      split; [intros j; destruct j; simpl; try lia; intros _; cascade_side|].
      right. split; [cascade_side | reflexivity]. }
  rewrite Z.geb_leb.
  destruct (e <=? s) eqn:H2.
  { left. exists CheckWindow.
    split; [intros j; destruct j; simpl; try lia; intros _; cascade_side|].
    left. split; [cascade_side | reflexivity]. }
  destruct (find (is_station _) (mock_stations_db db)) as [station|] eqn:H3.
  2:{ left. exists CheckStation.
      split; [intros j; destruct j; simpl; try lia; intros _; cascade_side|].
      left. split; [cascade_side | reflexivity]. }
  destruct (find (is_connector _) (ChargingStation.connectors station))
    as [c|] eqn:H4.
  2:{ left. exists CheckConnector.
      split; [intros j; destruct j; simpl; try lia; intros _; cascade_side|].
      left. split; [cascade_side; eauto | reflexivity]. }
  assert (H5' : connector_status db (ChargingSessionCreate.station_id d)
                  (ChargingSessionCreate.connector_id d)
                = Some (Connector.status c))
    by (unfold connector_status; now rewrite H3, H4).
  destruct (String.eqb_spec (Connector.status c) "available") as [H5|H5]; simpl.
  2:{ left. exists CheckState.
      split; [intros j; destruct j; simpl; try lia; intros _; cascade_side|].
      left. split; [cascade_side; eauto|].
      unfold check_error. now rewrite H5'. }
  unfold check_connector_availability, get_sessions, ret, bind.
  destruct (availability_scan _ _ _ _ _) eqn:H6; simpl.
  2:{ left. exists CheckOverlap.
      split; [intros j; destruct j; simpl; try lia; intros _; cascade_side|].
      left. split; [|reflexivity].
      unfold fails, check_connector_availability, get_sessions, ret, bind.
      simpl. rewrite Ee, Es. simpl. now rewrite H6. }
  right. split; [|reflexivity].
  intros k; destruct k; cascade_side.
Qed.

(** What most proofs need of it: a request that is not accepted leaves the
    store alone. *)
Lemma create_cases env d db :
  (exists r, create_charging_session env d db = (r, db)
             /\ forall s, r <> Ok s)
  \/
  (passes_all env d db /\
   create_charging_session env d db =
     (Ok (new_session_of env d),
      mkDB (set_connector_status (mock_stations_db db)
              (ChargingSessionCreate.station_id d)
              (ChargingSessionCreate.connector_id d) "reserved")
           (mock_sessions_db db ++ [new_session_of env d]))).
Proof.
  destruct (create_run env d db) as [(k & _ & [[_ E]|[_ E]])|H];
    [left | left | now right]; eexists; (split; [exact E | discriminate]).
Qed.




(* ===================================================================== *)
(** ** Marking a connector *)
(* ===================================================================== *)

Lemma update_first_split {A} (p : A -> bool) (f : A -> A) l x :
  find p l = Some x ->
  exists l1 l2, l = (l1 ++ x :: l2)%list /\
                update_first p f l = (l1 ++ f x :: l2)%list.
Proof.
  induction l as [|y l IH]; simpl; [discriminate|].
  destruct (p y) eqn:E; intros H.
  - injection H as ->. now exists [], l.
  - destruct (IH H) as (l1 & l2 & -> & ->). now exists (y :: l1), l2.
Qed.

Lemma In_update_first {A} (p : A -> bool) (f : A -> A) l y :
  In y (update_first p f l) ->
  In y l \/ exists x, find p l = Some x /\ y = f x.
Proof.
  induction l as [|z l IH]; simpl; [tauto|].
  destruct (p z) eqn:E; simpl.
  - intros [<-|H]; eauto.
  - intros [<-|H]; auto. destruct (IH H) as [?|?]; auto.
Qed.

Section SetConnectorStatus.
Variables (stations : list ChargingStation.t) (sessions sessions' : list ChargingSession.t).
Variables (station_id connector_id v : string).
Let db := mkDB stations sessions.
Let db' := mkDB (set_connector_status stations station_id connector_id v) sessions'.

(** The marked connector, when there is one, carries the new status. *)
Lemma connector_status_set_same st :
  connector_status db station_id connector_id = Some st ->
  connector_status db' station_id connector_id = Some v.
Proof.
  unfold connector_status, db, db', set_connector_status. simpl.
  destruct (find (is_station station_id) stations) as [s|] eqn:Es;
    [|discriminate].
  destruct (find (is_connector connector_id) (ChargingStation.connectors s))
    as [c|] eqn:Ec; [|discriminate].
  intros _.
  erewrite find_update_first_same; [|eassumption|].
  2:{ apply find_some in Es. apply Es. }
  simpl. erewrite find_update_first_same; [reflexivity|eassumption|].
  apply find_some in Ec. apply Ec.
Qed.

(** Every other (station, connector) pair reads as before. *)
Lemma connector_status_set_other sid cid :
  (sid, cid) <> (station_id, connector_id) ->
  connector_status db' sid cid = connector_status db sid cid.
Proof.
  unfold connector_status, db, db', set_connector_status. simpl. intros Hne.
  destruct (String.eqb_spec sid station_id) as [->|Hs].
  - destruct (find (is_station station_id) stations) as [s|] eqn:Es.
    + erewrite find_update_first_same; [|eassumption|].
      2:{ apply find_some in Es. apply Es. }
      simpl. rewrite find_update_first_other; [reflexivity|].
      intros c Hc. apply find_some in Hc. destruct Hc as [_ Hc].
      unfold is_connector in *. apply String.eqb_eq in Hc. simpl.
      rewrite Hc. split; apply String.eqb_neq; congruence.
    + rewrite update_first_absent by assumption. now rewrite Es.
  - rewrite find_update_first_other; [reflexivity|].
    intros s Hfind. apply find_some in Hfind. destruct Hfind as [_ Hfind].
    unfold is_station in *. apply String.eqb_eq in Hfind. simpl.
    rewrite Hfind. split; apply String.eqb_neq; congruence.
Qed.

(** Marking never removes a connector from sight. *)
Lemma connector_status_set_some sid cid st :
  connector_status db sid cid = Some st ->
  exists st', connector_status db' sid cid = Some st' /\
              (st' = st \/ st' = v).
Proof.
  intros H.
  destruct (String.eqb_spec sid station_id) as [->|Hs];
    [destruct (String.eqb_spec cid connector_id) as [->|Hc]|].
  - exists v. split; [eapply connector_status_set_same; eassumption | auto].
  - exists st. rewrite connector_status_set_other by congruence. auto.
  - exists st. rewrite connector_status_set_other by congruence. auto.
Qed.
End SetConnectorStatus.

(* ===================================================================== *)
(** ** Reserve: the committed reservation *)
(* ===================================================================== *)

(** Settles [passes_all] and similar goals on a concrete request by
    evaluating each check. *)
Ltac eval_checks :=
  let k := fresh "k" in
  intros k; destruct k; unfold passes, fails, breaks; simpl;
  (split; [|try tauto; try discriminate]);
  try discriminate;
  try (unfold not; intros;
       repeat match goal with
       | H : exists _, _ |- _ => destruct H as (? & ? & ?)
       end;
       repeat match goal with
       | H : Some _ = Some _ |- _ => injection H as H; subst
       | H : _ = _ |- _ => progress (vm_compute in H)
       end;
       congruence).

(** The session ids of the ledger are the values [uuid4] issued, in the
    order in which it issued them. *)
Lemma session_ids_serve r db :
  map ChargingSession.session_id (mock_sessions_db (serve r db))
  = (map ChargingSession.session_id (mock_sessions_db db)
       ++ issued_ids [r] db)%list.
Proof.
  destruct r as [env d|env id|env id k c|env id]; simpl.
  - destruct (create_cases env d db) as [(r & E & Hr)|[_ E]]; rewrite E; simpl.
    + destruct r; simpl; rewrite ?app_nil_r; try reflexivity.
      now destruct (Hr a).
    + now rewrite map_app.
  - rewrite app_nil_r, start_run.
    destruct (find _ _) as [s|]; [|reflexivity].
    destruct (_ =? _)%string; simpl; [|reflexivity].
    now apply map_update_first.
  - rewrite app_nil_r, end_run.
    destruct (find _ _) as [s|]; [|reflexivity].
    destruct (_ =? _)%string; simpl; [|reflexivity].
    now apply map_update_first.
  - rewrite app_nil_r, cancel_run.
    destruct (find _ _) as [s|]; [|reflexivity].
    destruct (_ =? _)%string; simpl; [|reflexivity].
    now apply map_update_first.
Qed.

Lemma issued_ids_app rs rs' db :
  issued_ids (rs ++ rs') db
  = (issued_ids rs db ++ issued_ids rs' (serve_all rs db))%list.
Proof.
  revert db. induction rs as [|r rs IH]; intros db; simpl; [reflexivity|].
  rewrite IH. destruct r as [env d| | |]; try reflexivity.
  now destruct (answer_of (fst (create_charging_session env d db))).
Qed.

Lemma session_ids_serve_all rs db :
  map ChargingSession.session_id (mock_sessions_db (serve_all rs db))
  = (map ChargingSession.session_id (mock_sessions_db db)
       ++ issued_ids rs db)%list.
Proof.
  revert db. induction rs as [|r rs IH]; intros db; simpl.
  - now rewrite app_nil_r.
  - rewrite IH, session_ids_serve, <- app_assoc. f_equal.
    simpl. destruct r as [env d| | |]; try reflexivity.
    now destruct (answer_of (fst (create_charging_session env d db))).
Qed.

(** C3, counterexample.  The two timestamps of a new session are two
    separate readings of the UTC clock; when the clock ticks between them
    the session is stored with created_at different from updated_at. *)
Lemma reserve_timestamps_may_differ :
  ~ (forall env d db s db',
        create_charging_session env d db = (Ok s, db') ->
        ChargingSession.created_at s = ChargingSession.updated_at s).
Proof.
  intros H.
  specialize (H (mkCreateEnv 5 "id-1" 100 101)
                (ChargingSessionCreate.mk "STN-001" "C-001-1" "U1"
                   (Naive 10) (Naive 20))
                initial_db _ _ eq_refl).
  discriminate H.
Qed.

(** C3, as the code has it.  A reserve request that passes all six checks
    returns the session built from the request.  Its id is the value
    obtained from [uuid.uuid4()], and in any store reached by a run in
    which [uuid4] never returned a value twice, this call included, that id
    differs from the id of every session in the ledger.  The session
    carries the request's station_id, connector_id, user_id, start_time and
    expected_end_time, has status 'reserved', and created_at and updated_at
    are the two successive [utcnow()] readings (equal when the readings
    are).  The ledger afterwards is the old ledger followed by that
    session, and the station list differs from the old one in exactly one
    place: the status of the target connector, now 'reserved'. *)
Theorem reserve_success (env : CreateEnv) (d : ChargingSessionCreate.t) (db : DB) :
  passes_all env d db ->
  let s := new_session_of env d in
  let station_id := ChargingSessionCreate.station_id d in
  let connector_id := ChargingSessionCreate.connector_id d in
  exists db',
    create_charging_session env d db = (Ok s, db')
    /\ ChargingSession.session_id s = uuid4 env
    /\ (forall rs,
          db = serve_all rs initial_db ->
          NoDup (issued_ids (rs ++ [Reserve env d]) initial_db) ->
          forall x, In x (mock_sessions_db db) ->
                    ChargingSession.session_id x
                    <> ChargingSession.session_id s)
    /\ ChargingSession.station_id s = station_id
    /\ ChargingSession.connector_id s = connector_id
    /\ ChargingSession.user_id s = ChargingSessionCreate.user_id d
    /\ Naive (ChargingSession.start_time s) = ChargingSessionCreate.start_time d
    /\ Naive (ChargingSession.expected_end_time s)
       = ChargingSessionCreate.expected_end_time d
    /\ ChargingSession.status s = "reserved"
    /\ ChargingSession.created_at s = utcnow_created_at env
    /\ ChargingSession.updated_at s = utcnow_updated_at env
    /\ (utcnow_created_at env = utcnow_updated_at env ->
        ChargingSession.created_at s = ChargingSession.updated_at s)
    /\ mock_sessions_db db' = (mock_sessions_db db ++ [s])%list
    /\ connector_status db' station_id connector_id = Some "reserved"
    /\ (forall sid cid, (sid, cid) <> (station_id, connector_id) ->
          connector_status db' sid cid = connector_status db sid cid)
    /\ exists S1 station S2 C1 c C2,
         mock_stations_db db = (S1 ++ station :: S2)%list
         /\ ChargingStation.connectors station = (C1 ++ c :: C2)%list
         /\ ChargingStation.station_id station = station_id
         /\ Connector.connector_id c = connector_id
         /\ mock_stations_db db'
            = (S1 ++ ChargingStation.set_connectors
                       (C1 ++ Connector.set_status "reserved" c :: C2) station
                  :: S2)%list.
Proof.
  intros Hp s sid cid. subst s sid cid.
  destruct (create_run env d db) as [(k & _ & [[Hk _]|[Hk _]])|[_ Hrun]];
    [now destruct (proj1 (Hp k)) | now destruct (proj2 (Hp k))|].
  eexists. split; [exact Hrun|].
  destruct (pass_station (Hp CheckStation)) as [station Hs].
  destruct (pass_connector Hs (Hp CheckConnector)) as [c Hc].
  destruct (pass_window (Hp CheckPast) (Hp CheckWindow))
    as (t1 & t2 & Ht1 & Ht2 & _ & _).
  assert (Hst : connector_status db (ChargingSessionCreate.station_id d)
                  (ChargingSessionCreate.connector_id d)
                = Some (Connector.status c))
    by (unfold connector_status; now rewrite Hs, Hc).
  split; [reflexivity|]. split.
  { intros rs Hdb Hnd x Hin Heq. simpl in Heq.
    rewrite issued_ids_app, <- Hdb in Hnd. simpl in Hnd. rewrite Hrun in Hnd.
    simpl in Hnd. apply NoDup_remove_2 in Hnd. rewrite app_nil_r in Hnd.
    apply Hnd.
    assert (Hids : map ChargingSession.session_id (mock_sessions_db db)
                   = issued_ids rs initial_db)
      by (rewrite Hdb; apply session_ids_serve_all).
    rewrite <- Hids, <- Heq. now apply in_map. }
  destruct db as [stations sessions].
  repeat (split; [try reflexivity; auto|]).
  - simpl. now rewrite Ht1.
  - simpl. now rewrite Ht2.
  - eapply connector_status_set_same. exact Hst.
  - intros sid' cid' Hne. now apply connector_status_set_other.
  - simpl in *. unfold set_connector_status.
    destruct (update_first_split _
                (fun station0 =>
                   ChargingStation.set_connectors
                     (update_first
                        (is_connector (ChargingSessionCreate.connector_id d))
                        (Connector.set_status "reserved")
                        (ChargingStation.connectors station0)) station0)
                stations Hs) as (S1 & S2 & HS & ->).
    destruct (update_first_split _ (Connector.set_status "reserved") _ Hc)
      as (C1 & C2 & HC & ->).
    exists S1, station, S2, C1, c, C2.
    apply find_some in Hs, Hc. destruct Hs as [_ Hs], Hc as [_ Hc].
    apply String.eqb_eq in Hs, Hc. auto.
Qed.

(** A second reservation, on another connector: its id differs from the
    one in the ledger. *)
Lemma reserve_success_witness :
  let r1 := Reserve (mkCreateEnv 5 "id-1" 6 6)
              (ChargingSessionCreate.mk "STN-001" "C-001-1" "U1"
                 (Naive 10) (Naive 20)) in
  let db := serve_all [r1] initial_db in
  let env := mkCreateEnv 7 "id-2" 100 101 in
  let d := ChargingSessionCreate.mk "STN-001" "C-001-2" "U2"
             (Naive 10) (Naive 20) in
  exists db',
    create_charging_session env d db = (Ok (new_session_of env d), db')
    /\ (forall x, In x (mock_sessions_db db) ->
                  ChargingSession.session_id x <> "id-2")
    /\ connector_status db' "STN-001" "C-001-2" = Some "reserved".
Proof.
  intros r1 db env d.
  assert (Hp : passes_all env d db) by (unfold passes_all; eval_checks).
  destruct (reserve_success Hp)
    as (db' & H1 & _ & Hfresh & _ & _ & _ & _ & _ & _ & _ & _ & _ & _ & H2 & _).
  exists db'. split; [exact H1|]. split; [|exact H2].
  apply (Hfresh [r1] eq_refl).
  vm_compute. repeat constructor; simpl; intuition discriminate.
Defined.

(* ===================================================================== *)
(** ** Lifecycle transitions: rejections *)
(* ===================================================================== *)

Lemma session_status_find db id :
  session_status db id =
  option_map ChargingSession.status (find (is_session id) (mock_sessions_db db)).
Proof. unfold session_status. now destruct (find _ _). Qed.

(** [session_status] is [None] exactly when no session has the id. *)
Lemma session_status_none_iff db id :
  session_status db id = None <->
  forall s, In s (mock_sessions_db db) -> ChargingSession.session_id s <> id.
Proof.
  rewrite session_status_find.
  destruct (find (is_session id) (mock_sessions_db db)) as [s|] eqn:E; simpl.
  - split; [discriminate|]. intros H.
    destruct (find_some _ _ E) as [Hin Hid].
    apply String.eqb_eq in Hid. now destruct (H s Hin).
  - split; [|reflexivity]. intros _ s Hin.
    apply String.eqb_neq. exact (find_none _ _ E s Hin).
Qed.

(** C4.  With "the session" the first session of the ledger carrying the
    id: start, end and cancel raise 404 "Session not found." when no
    session has the id; start raises 400 when the session's status is not
    'reserved', end raises 400 when it is not 'in_progress', cancel raises
    400 when it is not 'reserved' (400 is how these endpoints report an
    illegal transition).  After a successful cancel, a second cancel of the
    same id raises that 400 and leaves the store as the first call left it,
    the session still 'cancelled'. *)
Theorem lifecycle_rejections (db : DB) (session_id : string) :
  (session_status db session_id = None ->
     (forall env,
        fst (start_charging_session env session_id db)
          = Raise err_session_not_found)
     /\ (forall env k c,
           fst (end_charging_session env session_id k c db)
             = Raise err_session_not_found)
     /\ (forall env,
           fst (cancel_charging_session env session_id db)
             = Raise err_session_not_found))
  /\ (forall st, session_status db session_id = Some st ->
        (st <> "reserved" ->
           (forall env,
              fst (start_charging_session env session_id db)
                = Raise err_not_reserved)
           /\ (forall env,
                 fst (cancel_charging_session env session_id db)
                   = Raise err_not_cancellable))
        /\ (st <> "in_progress" ->
              forall env k c,
                fst (end_charging_session env session_id k c db)
                  = Raise err_not_in_progress))
  /\ (status_code err_session_not_found = 404
      /\ status_code err_not_reserved = 400
      /\ status_code err_not_in_progress = 400
      /\ status_code err_not_cancellable = 400)
  /\ (forall env1 env2 db1,
        cancel_charging_session env1 session_id db = (Ok tt, db1) ->
        session_status db1 session_id = Some "cancelled"
        /\ cancel_charging_session env2 session_id db1
           = (Raise err_not_cancellable, db1)).
Proof.
  rewrite session_status_find.
  destruct (find (is_session session_id) (mock_sessions_db db)) as [s|] eqn:E;
    simpl.
  - split; [discriminate|]. split; [|split; [repeat split|]].
    + intros st H. injection H as <-.
      split; intros Hne; apply String.eqb_neq in Hne; [split; intros|intros];
        rewrite ?start_run, ?end_run, ?cancel_run, E, Hne; reflexivity.
    + intros env1 env2 db1 H. rewrite cancel_run, E in H.
      destruct ((ChargingSession.status s =? "reserved")%string);
        [|discriminate].
      injection H as <-.
      assert (Hs : is_session session_id (cancelled env1 s) = true)
        by (rewrite is_session_cancelled; apply (find_some _ _ E)).
      rewrite session_status_find, cancel_run. simpl.
      rewrite (find_update_first_same _ _ _ E Hs). simpl. auto.
  - split; [|split; [discriminate|split; [repeat split|]]].
    + intros _. repeat split; intros;
        rewrite ?start_run, ?end_run, ?cancel_run, E; reflexivity.
    + intros env1 env2 db1 H. rewrite cancel_run, E in H. discriminate.
Qed.

(** Cancelling the only reservation twice. *)
Lemma lifecycle_rejections_witness :
  let db := serve (Reserve (mkCreateEnv 5 "id-1" 6 6)
                     (ChargingSessionCreate.mk "STN-001" "C-001-1" "U1" (Naive 10) (Naive 20)))
              initial_db in
  let db1 := serve (Cancel (mkCancelEnv 7) "id-1") db in
  session_status db1 "id-1" = Some "cancelled"
  /\ cancel_charging_session (mkCancelEnv 8) "id-1" db1
     = (Raise err_not_cancellable, db1).
Proof.
  intros db db1.
  exact (proj2 (proj2 (proj2 (lifecycle_rejections db "id-1")))
           (mkCancelEnv 7) (mkCancelEnv 8) db1 eq_refl).
Defined.

(* ===================================================================== *)
(** ** All or nothing *)
(* ===================================================================== *)

(** Ledger [l'] is ledger [l] with the one entry [s] replaced by [s']. *)
Definition entry_replaced (l l' : list ChargingSession.t)
    (s s' : ChargingSession.t) : Prop :=
  exists l1 l2, l = (l1 ++ s :: l2)%list /\ l' = (l1 ++ s' :: l2)%list.

(** Between [db] and [db'] the connector of the pair, if there is one, has
    taken status [v], and every other connector reads as before. *)
Definition connector_marked (db db' : DB) (sid cid v : string) : Prop :=
  (forall st, connector_status db sid cid = Some st ->
              connector_status db' sid cid = Some v)
  /\ (forall sid' cid', (sid', cid') <> (sid, cid) ->
        connector_status db' sid' cid' = connector_status db sid' cid').

(** The full effect of an accepted request, read off the store before and
    the store after. *)
Definition applied (r : request) (db db' : DB) : Prop :=
  match r with
  | Reserve env d =>
      exists s,
        mock_sessions_db db' = (mock_sessions_db db ++ [s])%list
        /\ ChargingSession.session_id s = uuid4 env
        /\ ChargingSession.station_id s = ChargingSessionCreate.station_id d
        /\ ChargingSession.connector_id s
           = ChargingSessionCreate.connector_id d
        /\ ChargingSession.user_id s = ChargingSessionCreate.user_id d
        /\ Naive (ChargingSession.start_time s)
           = ChargingSessionCreate.start_time d
        /\ Naive (ChargingSession.expected_end_time s)
           = ChargingSessionCreate.expected_end_time d
        /\ ChargingSession.status s = "reserved"
        /\ connector_status db' (ChargingSessionCreate.station_id d)
             (ChargingSessionCreate.connector_id d) = Some "reserved"
        /\ connector_marked db db' (ChargingSessionCreate.station_id d)
             (ChargingSessionCreate.connector_id d) "reserved"
  | Start env id =>
      exists s s',
        find (is_session id) (mock_sessions_db db) = Some s
        /\ entry_replaced (mock_sessions_db db) (mock_sessions_db db') s s'
        /\ ChargingSession.status s = "reserved"
        /\ ChargingSession.status s' = "in_progress"
        /\ ChargingSession.start_time s' = start_utcnow_start_time env
        /\ ChargingSession.updated_at s' = start_utcnow_updated_at env
        /\ connector_marked db db' (ChargingSession.station_id s)
             (ChargingSession.connector_id s) "occupied"
  | End_ env id k c =>
      exists s s',
        find (is_session id) (mock_sessions_db db) = Some s
        /\ entry_replaced (mock_sessions_db db) (mock_sessions_db db') s s'
        /\ ChargingSession.status s = "in_progress"
        /\ ChargingSession.status s' = "completed"
        /\ ChargingSession.actual_end_time s'
           = Some (end_utcnow_actual_end_time env)
        /\ ChargingSession.kwh_consumed s' = Some k
        /\ ChargingSession.cost s' = Some c
        /\ ChargingSession.updated_at s' = end_utcnow_updated_at env
        /\ connector_marked db db' (ChargingSession.station_id s)
             (ChargingSession.connector_id s) "available"
  | Cancel env id =>
      exists s s',
        find (is_session id) (mock_sessions_db db) = Some s
        /\ entry_replaced (mock_sessions_db db) (mock_sessions_db db') s s'
        /\ ChargingSession.status s = "reserved"
        /\ ChargingSession.status s' = "cancelled"
        /\ ChargingSession.updated_at s' = cancel_utcnow_updated_at env
        /\ connector_marked db db' (ChargingSession.station_id s)
             (ChargingSession.connector_id s) "available"
  end.

Lemma connector_marked_set stations sessions sessions' sid cid v :
  connector_marked (mkDB stations sessions)
    (mkDB (set_connector_status stations sid cid v) sessions') sid cid v.
Proof.
  split.
  - intros st. apply connector_status_set_same.
  - intros sid' cid'. apply connector_status_set_other.
Qed.

(** C6.  A reserve, start, end or cancel request that is answered with an
    exception, be it an [HTTPException] (then 400, 404 or 409) or an
    exception that escaped the handler, leaves the ledger and the stations
    exactly as they were.  A request that is accepted applies all of its
    mutations: reserve appends a 'reserved' session carrying the request's
    data and the connector reads 'reserved'; start, end and cancel replace
    the one session found by the id with one that is 'in_progress',
    'completed' (with actual end time, kwh and cost) or 'cancelled', and
    the session's connector reads 'occupied', 'available' or 'available';
    every other ledger entry and every other connector is as before. *)
Theorem requests_are_all_or_nothing (r : request) (db : DB) :
  (forall e, respond r db = Rejected e ->
     serve r db = db
     /\ (status_code e = 400 \/ status_code e = 404 \/ status_code e = 409))
  /\ (forall x, respond r db = Crashed x -> serve r db = db)
  /\ (respond r db = Accepted -> applied r db (serve r db)).
Proof.
  destruct db as [stations sessions].
  destruct r as [env d|env id|env id k c|env id]; simpl.
  - destruct (create_run env d (mkDB stations sessions))
      as [(k & _ & [[_ ->]|[_ ->]])|[Hp ->]]; simpl.
    + split; [|split; discriminate]. intros e H. injection H as <-.
      split; [reflexivity|]. destruct k; simpl; auto.
    + split; [discriminate|]. split; [reflexivity | discriminate].
    + split; [discriminate|]. split; [discriminate|]. intros _.
      destruct (pass_window (Hp CheckPast) (Hp CheckWindow))
        as (t1 & t2 & Ht1 & Ht2 & _ & _).
      destruct (pass_station (Hp CheckStation)) as [station Hs].
      destruct (pass_connector Hs (Hp CheckConnector)) as [c Hc].
      exists (new_session_of env d). simpl.
      split; [reflexivity|]. split; [reflexivity|]. split; [reflexivity|].
      split; [reflexivity|]. split; [reflexivity|].
      split; [now rewrite Ht1|]. split; [now rewrite Ht2|].
      split; [reflexivity|].
      split; [|apply connector_marked_set].
      apply (connector_status_set_same stations sessions)
        with (st := Connector.status c).
      unfold connector_status. simpl in *. now rewrite Hs, Hc.
  - rewrite start_run. simpl.
    destruct (find (is_session id) sessions) as [s|] eqn:E;
      [destruct (String.eqb_spec (ChargingSession.status s) "reserved")|];
      simpl.
    + split; [discriminate|]. split; [discriminate|]. intros _.
      destruct (update_first_split _ (started env) _ E) as (l1 & l2 & H1 & H2).
      exists s, (started env s).
      split; [reflexivity|]. split; [now exists l1, l2|].
      repeat (split; [assumption || reflexivity|]).
      apply connector_marked_set.
    + split; [|split; discriminate]. intros e H. injection H as <-. auto.
    + split; [|split; discriminate]. intros e H. injection H as <-. auto.
  - rewrite end_run. simpl.
    destruct (find (is_session id) sessions) as [s|] eqn:E;
      [destruct (String.eqb_spec (ChargingSession.status s) "in_progress")|];
      simpl.
    + split; [discriminate|]. split; [discriminate|]. intros _.
      destruct (update_first_split _ (ended env k c) _ E)
        as (l1 & l2 & H1 & H2).
      exists s, (ended env k c s).
      split; [reflexivity|]. split; [now exists l1, l2|].
      repeat (split; [assumption || reflexivity|]).
      apply connector_marked_set.
    + split; [|split; discriminate]. intros e H. injection H as <-. auto.
    + split; [|split; discriminate]. intros e H. injection H as <-. auto.
  - rewrite cancel_run. simpl.
    destruct (find (is_session id) sessions) as [s|] eqn:E;
      [destruct (String.eqb_spec (ChargingSession.status s) "reserved")|];
      simpl.
    + split; [discriminate|]. split; [discriminate|]. intros _.
      destruct (update_first_split _ (cancelled env) _ E)
        as (l1 & l2 & H1 & H2).
      exists s, (cancelled env s).
      split; [reflexivity|]. split; [now exists l1, l2|].
      repeat (split; [assumption || reflexivity|]).
      apply connector_marked_set.
    + split; [|split; discriminate]. intros e H. injection H as <-. auto.
    + split; [|split; discriminate]. intros e H. injection H as <-. auto.
Qed.

(** A reservation whose window lies in the past: 400, nothing created and
    no connector touched. *)
Lemma requests_are_all_or_nothing_witness :
  let r := Reserve (mkCreateEnv 50 "id-1" 51 51)
             (ChargingSessionCreate.mk "STN-001" "C-001-1" "U1"
                (Naive 10) (Naive 20)) in
  serve r initial_db = initial_db
  /\ (status_code err_past = 400 \/ status_code err_past = 404
      \/ status_code err_past = 409).
Proof.
  intros r.
  exact (proj1 (requests_are_all_or_nothing r initial_db) err_past eq_refl).
Defined.

(* ===================================================================== *)
(** ** What every reachable store satisfies *)
(* ===================================================================== *)

(** Session [s] is reserved or in progress on the given pair. *)
Definition active_on (station_id connector_id : string)
    (s : ChargingSession.t) : bool :=
  (ChargingSession.station_id s =? station_id)%string
  && (ChargingSession.connector_id s =? connector_id)%string
  && active_status (ChargingSession.status s).

Definition assigned_status (st : string) : Prop :=
  st = "reserved" \/ st = "in_progress" \/ st = "completed" \/ st = "cancelled".

Record consistent (db : DB) : Prop := mkConsistent {
  inv_status :
    Forall (fun s => assigned_status (ChargingSession.status s))
           (mock_sessions_db db);
  inv_single :
    forall sid cid,
      (List.length (filter (active_on sid cid) (mock_sessions_db db)) <= 1)%nat;
  inv_held :
    forall s, In s (mock_sessions_db db) ->
      active_status (ChargingSession.status s) = true ->
      exists st,
        connector_status db (ChargingSession.station_id s)
          (ChargingSession.connector_id s) = Some st
        /\ st <> "available";
  inv_window :
    forall s, In s (mock_sessions_db db) ->
      ChargingSession.status s = "reserved" ->
      ChargingSession.start_time s < ChargingSession.expected_end_time s
}.

Lemma active_on_true sid cid s :
  active_on sid cid s = true <->
  ChargingSession.station_id s = sid /\ ChargingSession.connector_id s = cid
  /\ active_status (ChargingSession.status s) = true.
Proof.
  unfold active_on. rewrite !andb_true_iff, !String.eqb_eq. tauto.
Qed.

Lemma active_on_self s :
  active_status (ChargingSession.status s) = true ->
  active_on (ChargingSession.station_id s) (ChargingSession.connector_id s) s
  = true.
Proof. intros H. apply active_on_true. auto. Qed.

Lemma filter_hit {A} (q : A -> bool) l y :
  In y l -> q y = true -> (1 <= List.length (filter q l))%nat.
Proof.
  intros Hin Hq.
  assert (H : In y (filter q l)) by (apply filter_In; auto).
  destruct (filter q l); [destruct H | simpl; lia].
Qed.

Lemma consistent_initial : consistent initial_db.
Proof.
  constructor; simpl.
  - constructor.
  - intros. lia.
  - intros s [].
  - intros s [].
Qed.

(** A committed reservation keeps the store consistent. *)
Lemma consistent_reserve env d db :
  consistent db -> passes_all env d db ->
  consistent
    (mkDB (set_connector_status (mock_stations_db db)
             (ChargingSessionCreate.station_id d)
             (ChargingSessionCreate.connector_id d) "reserved")
          (mock_sessions_db db ++ [new_session_of env d])).
Proof.
  intros [I1 I2 I3 I4] Hp.
  destruct (pass_station (Hp CheckStation)) as [station Hs].
  destruct (pass_connector Hs (Hp CheckConnector)) as [c Hc].
  pose proof (pass_state Hs Hc (Hp CheckState)) as Hav.
  assert (Hst : connector_status db (ChargingSessionCreate.station_id d)
                  (ChargingSessionCreate.connector_id d) = Some "available")
    by (unfold connector_status; now rewrite Hs, Hc, Hav).
  assert (Hw : naive_of (ChargingSessionCreate.start_time d)
               < naive_of (ChargingSessionCreate.expected_end_time d)).
  { destruct (pass_window (Hp CheckPast) (Hp CheckWindow))
      as (t1 & t2 & -> & -> & _ & H). exact H. }
  destruct db as [stations sessions]. simpl in *.
  constructor; simpl.
  - apply Forall_app. split; [assumption|].
    constructor; [|constructor]. left. reflexivity.
  - intros sid cid. rewrite filter_app, length_app. simpl.
    destruct (active_on sid cid (new_session_of env d)) eqn:E; simpl.
    + apply active_on_true in E. simpl in E. destruct E as (<- & <- & _).
      destruct (filter _ sessions) as [|y l] eqn:F; [simpl; lia|].
      assert (Hy : In y (filter (active_on (ChargingSessionCreate.station_id d)
                                   (ChargingSessionCreate.connector_id d))
                           sessions)) by (rewrite F; now left).
      apply filter_In in Hy. destruct Hy as [Hy Ha].
      apply active_on_true in Ha. destruct Ha as (Ha1 & Ha2 & Ha3).
      destruct (I3 y Hy Ha3) as (st & Hst' & Hne).
      rewrite Ha1, Ha2 in Hst'. congruence.
    + specialize (I2 sid cid). lia.
  - intros s Hin Hact. apply in_app_or in Hin. destruct Hin as [Hin|[<-|[]]].
    + destruct (I3 s Hin Hact) as (st & Hst' & Hne).
      destruct (connector_status_set_some stations sessions
                  (sessions ++ [new_session_of env d])
                  (ChargingSessionCreate.station_id d)
                  (ChargingSessionCreate.connector_id d) "reserved" _ _ Hst')
        as (st' & Hst'' & Hor).
      exists st'. split; [assumption|].
      destruct Hor as [->| ->]; [assumption | discriminate].
    + exists "reserved". split; [|discriminate].
      eapply connector_status_set_same. exact Hst.
  - intros s Hin Hres. apply in_app_or in Hin. destruct Hin as [Hin|[<-|[]]].
    + auto.
    + exact Hw.
Qed.

(** Starting the reserved session [s] keeps the store consistent. *)
Lemma consistent_start env id db s :
  consistent db ->
  find (is_session id) (mock_sessions_db db) = Some s ->
  ChargingSession.status s = "reserved" ->
  consistent
    (mkDB (set_connector_status (mock_stations_db db)
             (ChargingSession.station_id s)
             (ChargingSession.connector_id s) "occupied")
          (update_first (is_session id) (started env) (mock_sessions_db db))).
Proof.
  intros [I1 I2 I3 I4] Hfind Hres.
  destruct (find_some _ _ Hfind) as [Hin0 _].
  assert (Hact0 : active_status (ChargingSession.status s) = true)
    by (now rewrite Hres).
  destruct db as [stations sessions]. simpl in *.
  constructor; simpl.
  - apply Forall_update_first; [|assumption].
    intros x _. right. left. reflexivity.
  - intros sid cid. rewrite filter_update_first_keep; [apply I2|].
    intros x Hx. assert (x = s) by congruence. subst x.
    unfold active_on. simpl. now rewrite Hres.
  - intros y Hin Hact.
    destruct (In_update_first _ _ _ _ Hin) as [Hy|(x & Hx & ->)].
    + destruct (I3 y Hy Hact) as (st & Hst & Hne).
      destruct (connector_status_set_some stations sessions
                  (update_first (is_session id) (started env) sessions)
                  (ChargingSession.station_id s)
                  (ChargingSession.connector_id s) "occupied" _ _ Hst)
        as (st' & Hst' & Hor).
      exists st'. split; [assumption|].
      destruct Hor as [->| ->]; [assumption | discriminate].
    + assert (x = s) by congruence. subst x. simpl.
      destruct (I3 s Hin0 Hact0) as (st & Hst & _).
      exists "occupied". split; [|discriminate].
      eapply connector_status_set_same. exact Hst.
  - intros y Hin Hr.
    destruct (In_update_first _ _ _ _ Hin) as [Hy|(x & Hx & ->)]; [auto|].
    discriminate Hr.
Qed.

(** Ending or cancelling: the first session with the id, which is reserved
    or in progress, gets a status [f] that is neither, and its connector
    becomes available. *)
Lemma consistent_release id db s (f : ChargingSession.t -> ChargingSession.t) :
  consistent db ->
  find (is_session id) (mock_sessions_db db) = Some s ->
  active_status (ChargingSession.status s) = true ->
  (forall x, active_status (ChargingSession.status (f x)) = false
             /\ assigned_status (ChargingSession.status (f x))
             /\ ChargingSession.status (f x) <> "reserved") ->
  consistent
    (mkDB (set_connector_status (mock_stations_db db)
             (ChargingSession.station_id s)
             (ChargingSession.connector_id s) "available")
          (update_first (is_session id) f (mock_sessions_db db))).
Proof.
  intros [I1 I2 I3 I4] Hfind Hact0 Hf.
  destruct (find_some _ _ Hfind) as [Hin0 _].
  destruct db as [stations sessions]. simpl in *.
  assert (Hfree :
    List.length (filter (active_on (ChargingSession.station_id s)
                           (ChargingSession.connector_id s))
                   (update_first (is_session id) f sessions)) = 0%nat).
  { pose proof (filter_update_first_drop (is_session id) f
                  (active_on (ChargingSession.station_id s)
                     (ChargingSession.connector_id s)) sessions Hfind
                  (active_on_self s Hact0)) as Hd.
    specialize (I2 (ChargingSession.station_id s)
                   (ChargingSession.connector_id s)).
    assert (Hq : active_on (ChargingSession.station_id s)
                   (ChargingSession.connector_id s) (f s) = false).
    { unfold active_on. rewrite (proj1 (Hf s)). apply andb_false_r. }
    specialize (Hd Hq). lia. }
  constructor; simpl.
  - apply Forall_update_first; [|assumption]. intros x _. apply Hf.
  - intros sid cid.
    destruct (active_on sid cid s) eqn:E.
    + apply active_on_true in E. destruct E as (<- & <- & _).
      rewrite Hfree. lia.
    + rewrite filter_update_first_keep; [apply I2|].
      intros x Hx. assert (x = s) by congruence. subst x. rewrite E.
      unfold active_on. rewrite (proj1 (Hf s)). apply andb_false_r.
  - intros y Hin Hact.
    assert (Hy : In y sessions).
    { destruct (In_update_first _ _ _ _ Hin) as [Hy|(x & Hx & ->)]; [auto|].
      rewrite (proj1 (Hf x)) in Hact. discriminate. }
    destruct (I3 y Hy Hact) as (st & Hst & Hne).
    exists st. split; [|assumption].
    rewrite (connector_status_set_other stations sessions); [exact Hst|].
    intros Heq. injection Heq as H1 H2.
    pose proof (filter_hit (active_on (ChargingSession.station_id s)
                              (ChargingSession.connector_id s)) _ y Hin) as Hh.
    rewrite Hfree in Hh.
    assert (active_on (ChargingSession.station_id s)
              (ChargingSession.connector_id s) y = true)
      by (apply active_on_true; auto).
    specialize (Hh H). lia.
  - intros y Hin Hr.
    destruct (In_update_first _ _ _ _ Hin) as [Hy|(x & Hx & ->)]; [auto|].
    now destruct (proj2 (proj2 (Hf x))).
Qed.

Lemma consistent_serve r db : consistent db -> consistent (serve r db).
Proof.
  intros Hc. destruct r as [env d|env id|env id k c|env id]; simpl.
  - destruct (create_cases env d db) as [(r0 & -> & _)|[Hp ->]]; simpl;
      [assumption | now apply consistent_reserve].
  - rewrite start_run.
    destruct (find (is_session id) (mock_sessions_db db)) as [s|] eqn:E;
      [|assumption].
    destruct (String.eqb_spec (ChargingSession.status s) "reserved");
      [|assumption].
    now apply consistent_start.
  - rewrite end_run.
    destruct (find (is_session id) (mock_sessions_db db)) as [s|] eqn:E;
      [|assumption].
    destruct (String.eqb_spec (ChargingSession.status s) "in_progress") as [Hs|];
      [|assumption].
    apply consistent_release; auto.
    + now rewrite Hs.
    + intros x. simpl. repeat split; [|discriminate].
      right. right. left. reflexivity.
  - rewrite cancel_run.
    destruct (find (is_session id) (mock_sessions_db db)) as [s|] eqn:E;
      [|assumption].
    destruct (String.eqb_spec (ChargingSession.status s) "reserved") as [Hs|];
      [|assumption].
    apply consistent_release; auto.
    + now rewrite Hs.
    + intros x. simpl. repeat split; [|discriminate].
      right. right. right. reflexivity.
Qed.

Lemma reachable_consistent db : reachable db -> consistent db.
Proof.
  induction 1 as [|r db _ IH]; [apply consistent_initial|].
  now apply consistent_serve.
Qed.

(* ===================================================================== *)
(** ** Session and connector move together *)
(* ===================================================================== *)

(** C5.  In a reachable store, each successful lifecycle operation leaves
    the affected session and the connector it references in matching
    states: reserve gives 'reserved' / 'reserved', start gives
    'in_progress' / 'occupied', end gives 'completed' / 'available', cancel
    gives 'cancelled' / 'available', both read from the store that the same
    call returns. *)
Theorem session_and_connector_in_lockstep (db : DB) :
  reachable db ->
  (forall env d s db',
     create_charging_session env d db = (Ok s, db') ->
     In s (mock_sessions_db db')
     /\ ChargingSession.status s = "reserved"
     /\ connector_status db' (ChargingSession.station_id s)
          (ChargingSession.connector_id s) = Some "reserved")
  /\ (forall env id s db',
        start_charging_session env id db = (Ok s, db') ->
        find (is_session id) (mock_sessions_db db') = Some s
        /\ ChargingSession.status s = "in_progress"
        /\ connector_status db' (ChargingSession.station_id s)
             (ChargingSession.connector_id s) = Some "occupied")
  /\ (forall env id k c s db',
        end_charging_session env id k c db = (Ok s, db') ->
        find (is_session id) (mock_sessions_db db') = Some s
        /\ ChargingSession.status s = "completed"
        /\ connector_status db' (ChargingSession.station_id s)
             (ChargingSession.connector_id s) = Some "available")
  /\ (forall env id db',
        cancel_charging_session env id db = (Ok tt, db') ->
        exists s,
          find (is_session id) (mock_sessions_db db') = Some s
          /\ ChargingSession.status s = "cancelled"
          /\ connector_status db' (ChargingSession.station_id s)
               (ChargingSession.connector_id s) = Some "available").
Proof.
  intros Hr. pose proof (reachable_consistent Hr) as [_ _ I3 _].
  destruct db as [stations sessions]. simpl in *.
  split; [|split; [|split]].
  - intros env d s db' H.
    destruct (create_cases env d (mkDB stations sessions))
      as [(r0 & E & Hr0)|[Hp E]]; rewrite E in H;
      [injection H as -> _; now destruct (Hr0 s)|].
    injection H as <- <-. simpl.
    split; [apply in_or_app; right; now left|]. split; [reflexivity|].
    destruct (pass_station (Hp CheckStation)) as [station Hs].
    destruct (pass_connector Hs (Hp CheckConnector)) as [c Hc].
    apply (connector_status_set_same stations sessions)
      with (st := Connector.status c).
    unfold connector_status. simpl in *. now rewrite Hs, Hc.
  - intros env id s db' H. rewrite start_run in H. simpl in H.
    destruct (find (is_session id) sessions) as [s0|] eqn:E; [|discriminate].
    destruct (String.eqb_spec (ChargingSession.status s0) "reserved")
      as [Hs|]; [|discriminate].
    injection H as <- <-. simpl.
    destruct (find_some _ _ E) as [Hin Hid].
    split; [now apply find_update_first_same|]. split; [reflexivity|].
    destruct (I3 s0 Hin) as (st & Hst & _); [now rewrite Hs|].
    eapply connector_status_set_same. exact Hst.
  - intros env id k c s db' H. rewrite end_run in H. simpl in H.
    destruct (find (is_session id) sessions) as [s0|] eqn:E; [|discriminate].
    destruct (String.eqb_spec (ChargingSession.status s0) "in_progress")
      as [Hs|]; [|discriminate].
    injection H as <- <-. simpl.
    destruct (find_some _ _ E) as [Hin Hid].
    split; [now apply find_update_first_same|]. split; [reflexivity|].
    destruct (I3 s0 Hin) as (st & Hst & _); [now rewrite Hs|].
    eapply connector_status_set_same. exact Hst.
  - intros env id db' H. rewrite cancel_run in H. simpl in H.
    destruct (find (is_session id) sessions) as [s0|] eqn:E; [|discriminate].
    destruct (String.eqb_spec (ChargingSession.status s0) "reserved")
      as [Hs|]; [|discriminate].
    injection H as <-. simpl.
    destruct (find_some _ _ E) as [Hin Hid].
    exists (cancelled env s0).
    split; [now apply find_update_first_same|]. split; [reflexivity|].
    destruct (I3 s0 Hin) as (st & Hst & _); [now rewrite Hs|].
    eapply connector_status_set_same. exact Hst.
Qed.

(** Reserve, then start: the connector is occupied while the session is in
    progress. *)
Lemma session_and_connector_in_lockstep_witness :
  let db := serve (Reserve (mkCreateEnv 5 "id-1" 6 6)
                     (ChargingSessionCreate.mk "STN-001" "C-001-1" "U1" (Naive 10) (Naive 20)))
              initial_db in
  let env := mkStartEnv 12 12 in
  exists s db',
    start_charging_session env "id-1" db = (Ok s, db')
    /\ ChargingSession.status s = "in_progress"
    /\ connector_status db' "STN-001" "C-001-1" = Some "occupied".
Proof.
  intros db env.
  assert (Hr : reachable db) by (apply reachable_step, reachable_init).
  destruct (session_and_connector_in_lockstep Hr) as (_ & Hstart & _).
  eexists _, _. split; [reflexivity|].
  destruct (Hstart env "id-1" _ _ eq_refl) as (_ & H1 & H2).
  split; [exact H1 | exact H2].
Defined.

(* ===================================================================== *)
(** ** One active session per connector *)
(* ===================================================================== *)




(* ===================================================================== *)
(** ** Statuses that are ever assigned *)
(* ===================================================================== *)

(** C10.  In a reachable store every session has one of the statuses
    'reserved', 'in_progress', 'completed', 'cancelled'; none has status
    'failed', which only the comment in [models.py] mentions. *)
Theorem failed_is_never_assigned (db : DB) :
  reachable db ->
  forall s, In s (mock_sessions_db db) ->
    assigned_status (ChargingSession.status s)
    /\ ChargingSession.status s <> "failed".
Proof.
  intros Hr s Hin. pose proof (reachable_consistent Hr) as [I1 _ _ _].
  rewrite Forall_forall in I1. specialize (I1 s Hin).
  split; [assumption|].
  destruct I1 as [->|[->|[->| ->]]]; discriminate.
Qed.

(** The session of a reserve, start, end run is 'completed'. *)
Lemma failed_is_never_assigned_witness :
  let db :=
    serve (End_ (mkEndEnv 18 18) "id-1" 12.5%float 4.3%float)
      (serve (Start (mkStartEnv 12 12) "id-1")
         (serve (Reserve (mkCreateEnv 5 "id-1" 6 6)
                   (ChargingSessionCreate.mk "STN-001" "C-001-1" "U1" (Naive 10) (Naive 20)))
            initial_db)) in
  exists s, In s (mock_sessions_db db)
            /\ ChargingSession.status s = "completed"
            /\ ChargingSession.status s <> "failed".
Proof.
  intros db.
  assert (Hr : reachable db) by (repeat apply reachable_step; apply reachable_init).
  eexists. split; [left; reflexivity|]. split; [reflexivity|].
  refine (proj2 (failed_is_never_assigned Hr _ _)). left. reflexivity.
Defined.

(* ===================================================================== *)
(** ** The window of a started session *)
(* ===================================================================== *)

(** What the code does keep: a session that is still 'reserved' has
    start_time < expected_end_time, as check 2 established at creation. *)
Lemma reserved_window_ordered (db : DB) :
  reachable db ->
  forall s, In s (mock_sessions_db db) ->
    ChargingSession.status s = "reserved" ->
    ChargingSession.start_time s < ChargingSession.expected_end_time s.
Proof.
  intros Hr. pose proof (reachable_consistent Hr) as [_ _ _ I4]. exact I4.
Qed.

(** C7, the code at the failing input.  A reservation for [10, 20) made at
    time 5 and started at time 25: [start_charging_session] overwrites
    start_time with the clock reading without comparing it with
    expected_end_time, and the ledger then holds a session with
    start_time 25 and expected_end_time 20. *)
Theorem start_overwrites_window_start :
  let db :=
    serve (Start (mkStartEnv 25 25) "id-1")
      (serve (Reserve (mkCreateEnv 5 "id-1" 6 6)
                (ChargingSessionCreate.mk "STN-001" "C-001-1" "U1" (Naive 10) (Naive 20)))
         initial_db) in
  reachable db
  /\ exists s, In s (mock_sessions_db db)
               /\ ChargingSession.status s = "in_progress"
               /\ ChargingSession.start_time s = 25
               /\ ChargingSession.expected_end_time s = 20
               /\ ~ (ChargingSession.start_time s
                     < ChargingSession.expected_end_time s).
Proof.
  intros db. split.
  - repeat apply reachable_step. apply reachable_init.
  - eexists. split; [left; reflexivity|]. simpl. repeat split. lia.
Qed.

(* ===================================================================== *)
(** ** The read-only endpoints *)
(* ===================================================================== *)

(** GET /stations *)
Definition get_charging_stations : M (list ChargingStation.t) :=
  (stations <- get_stations ;; ret stations)%handler.

(** GET /stations/{station_id} *)
Definition get_station_details (station_id : string) : M ChargingStation.t :=
  (stations <- get_stations ;;
   match find (is_station station_id) stations with
   | None => raise (err_station station_id)
   | Some station => ret station
   end)%handler.

(** X1.  [get_station_details] never changes the store.  It answers with a
    station exactly when some station of the list has the id, and then with
    one that has the id and is in the list; otherwise it raises 404 with a
    message quoting the id. *)
Theorem get_station_details_spec (db : DB) (station_id : string) :
  snd (get_station_details station_id db) = db
  /\ ((forall s, In s (mock_stations_db db) ->
                 ChargingStation.station_id s <> station_id) ->
      fst (get_station_details station_id db)
        = Raise (mkHTTPException 404
                   ("Charging station with ID '" ++ station_id
                      ++ "' not found.")))
  /\ ((exists s, In s (mock_stations_db db)
                 /\ ChargingStation.station_id s = station_id) ->
      exists s, fst (get_station_details station_id db) = Ok s)
  /\ (forall s, fst (get_station_details station_id db) = Ok s ->
        In s (mock_stations_db db)
        /\ ChargingStation.station_id s = station_id).
Proof.
  unfold get_station_details, bind, get_stations.
  destruct (find (is_station station_id) (mock_stations_db db)) as [s|] eqn:E;
    simpl.
  - destruct (find_some _ _ E) as [Hin Hid]. apply String.eqb_eq in Hid.
    repeat split.
    + intros H. now destruct (H s Hin).
    + eauto.
    + now injection H as <-.
    + now injection H as <-.
  - repeat split; try discriminate.
    intros (s & Hin & Hid). pose proof (find_none _ _ E s Hin) as Hn.
    apply String.eqb_neq in Hn. now destruct Hn.
Qed.

Lemma get_station_details_spec_witness :
  exists s, fst (get_station_details "STN-002" initial_db) = Ok s.
Proof.
  refine (proj1 (proj2 (proj2 (get_station_details_spec initial_db "STN-002"))) _).
  eexists. split; [right; left; reflexivity | reflexivity].
Defined.

(* ===================================================================== *)
(** ** The inventory keeps its shape *)
(* ===================================================================== *)

(** A station list with every connector status blanked out: what is left
    is everything the handlers never assign. *)
Definition inventory_shape (stations : list ChargingStation.t)
    : list ChargingStation.t :=
  map (fun station =>
         ChargingStation.set_connectors
           (map (Connector.set_status "") (ChargingStation.connectors station))
           station)
      stations.

Definition connector_status_assigned (st : string) : Prop :=
  st = "available" \/ st = "reserved" \/ st = "occupied".

Definition statuses_assigned (stations : list ChargingStation.t) : Prop :=
  Forall (fun station =>
            Forall (fun c => connector_status_assigned (Connector.status c))
                   (ChargingStation.connectors station))
         stations.

Lemma inventory_shape_set stations sid cid v :
  inventory_shape (set_connector_status stations sid cid v)
  = inventory_shape stations.
Proof.
  unfold inventory_shape, set_connector_status.
  apply map_update_first. intros station. simpl.
  unfold ChargingStation.set_connectors. simpl. f_equal.
  now apply map_update_first.
Qed.

Lemma statuses_assigned_set stations sid cid v :
  connector_status_assigned v ->
  statuses_assigned stations ->
  statuses_assigned (set_connector_status stations sid cid v).
Proof.
  intros Hv. unfold statuses_assigned, set_connector_status.
  apply Forall_update_first. intros station H. simpl.
  apply Forall_update_first; [|assumption]. intros c _. exact Hv.
Qed.

(** The stations after a request, whatever its outcome. *)
Lemma serve_stations r db :
  mock_stations_db (serve r db) = mock_stations_db db
  \/ exists sid cid v,
       connector_status_assigned v
       /\ mock_stations_db (serve r db)
          = set_connector_status (mock_stations_db db) sid cid v.
Proof.
  destruct r as [env d|env id|env id k c|env id]; simpl.
  - destruct (create_cases env d db) as [(r0 & -> & _)|[_ ->]]; simpl;
      [now left|].
    right. eexists _, _, _. split; [|reflexivity]. right. now left.
  - rewrite start_run.
    destruct (find _ _) as [s|]; [|now left].
    destruct (_ =? _)%string; [|now left].
    right. eexists _, _, _. split; [|reflexivity]. right. now right.
  - rewrite end_run.
    destruct (find _ _) as [s|]; [|now left].
    destruct (_ =? _)%string; [|now left].
    right. eexists _, _, _. split; [|reflexivity]. now left.
  - rewrite cancel_run.
    destruct (find _ _) as [s|]; [|now left].
    destruct (_ =? _)%string; [|now left].
    right. eexists _, _, _. split; [|reflexivity]. now left.
Qed.

(** X2.  Whatever requests have been served, GET /stations returns the
    seeded stations with nothing changed but connector statuses (same
    stations and connectors in the same order, same ids, names, types and
    powers), every connector status being 'available', 'reserved' or
    'occupied'; the call itself leaves the store alone. *)
Theorem stations_keep_their_shape (db : DB) :
  reachable db ->
  exists stations,
    get_charging_stations db = (Ok stations, db)
    /\ inventory_shape stations = inventory_shape seed_stations
    /\ statuses_assigned stations.
Proof.
  intros Hr. exists (mock_stations_db db). split; [reflexivity|].
  induction Hr as [|r db Hr [IH1 IH2]].
  - split; [reflexivity|].
    repeat constructor.
  - destruct (serve_stations r db) as [->|(sid & cid & v & Hv & ->)];
      [now split|].
    split; [now rewrite inventory_shape_set | now apply statuses_assigned_set].
Qed.

Lemma stations_keep_their_shape_witness :
  let db := serve (Reserve (mkCreateEnv 5 "id-1" 6 6)
                     (ChargingSessionCreate.mk "STN-002" "C-002-2" "U1" (Naive 10) (Naive 20)))
              initial_db in
  exists stations,
    get_charging_stations db = (Ok stations, db)
    /\ inventory_shape stations = inventory_shape seed_stations
    /\ statuses_assigned stations.
Proof.
  intros db.
  exact (stations_keep_their_shape (reachable_step _ reachable_init)).
Defined.

(* ===================================================================== *)
(** ** Listing a user's sessions *)
(* ===================================================================== *)

(** X3.  [get_user_sessions] leaves the store alone and returns exactly the
    ledger sessions of the user whose status is 'reserved' or
    'in_progress': completed and cancelled sessions are never listed, and
    no reserved or in-progress session of the user is left out. *)
Theorem get_user_sessions_spec (db : DB) (user_id : string) :
  exists listed,
    get_user_sessions user_id db = (Ok listed, db)
    /\ forall s,
         In s listed <->
         In s (mock_sessions_db db)
         /\ ChargingSession.user_id s = user_id
         /\ (ChargingSession.status s = "reserved"
             \/ ChargingSession.status s = "in_progress").
Proof.
  eexists. split; [reflexivity|]. intros s.
  rewrite filter_In, andb_true_iff, String.eqb_eq, active_status_iff. tauto.
Qed.

(* ===================================================================== *)
(** ** The ledger only grows, sessions only move forward *)
(* ===================================================================== *)

(** The fields of a session that no handler assigns after creation. *)
Definition identity (s : ChargingSession.t)
    : string * string * string * string * naive_datetime * naive_datetime :=
  (ChargingSession.session_id s, ChargingSession.station_id s,
   ChargingSession.connector_id s, ChargingSession.user_id s,
   ChargingSession.expected_end_time s, ChargingSession.created_at s).

(** The ledger after a request: unchanged, one session appended, or the
    first session with some id rewritten by one of the three transitions. *)
Inductive ledger_step (l : list ChargingSession.t)
    : list ChargingSession.t -> Prop :=
| ledger_same : ledger_step l l
| ledger_append env d : ledger_step l (l ++ [new_session_of env d])
| ledger_start env id s :
    find (is_session id) l = Some s ->
    ChargingSession.status s = "reserved" ->
    ledger_step l (update_first (is_session id) (started env) l)
| ledger_end env k c id s :
    find (is_session id) l = Some s ->
    ChargingSession.status s = "in_progress" ->
    ledger_step l (update_first (is_session id) (ended env k c) l)
| ledger_cancel env id s :
    find (is_session id) l = Some s ->
    ChargingSession.status s = "reserved" ->
    ledger_step l (update_first (is_session id) (cancelled env) l).

Lemma serve_ledger r db :
  ledger_step (mock_sessions_db db) (mock_sessions_db (serve r db)).
Proof.
  destruct r as [env d|env id|env id k c|env id]; simpl.
  - destruct (create_cases env d db) as [(r0 & -> & _)|[_ ->]]; simpl;
      constructor.
  - rewrite start_run.
    destruct (find _ _) as [s|] eqn:E; [|constructor].
    destruct (String.eqb_spec (ChargingSession.status s) "reserved");
      [|constructor].
    now apply ledger_start with s.
  - rewrite end_run.
    destruct (find _ _) as [s|] eqn:E; [|constructor].
    destruct (String.eqb_spec (ChargingSession.status s) "in_progress");
      [|constructor].
    now apply ledger_end with s.
  - rewrite cancel_run.
    destruct (find _ _) as [s|] eqn:E; [|constructor].
    destruct (String.eqb_spec (ChargingSession.status s) "reserved");
      [|constructor].
    now apply ledger_cancel with s.
Qed.

Lemma nth_error_update_first {A} (p : A -> bool) (f : A -> A) l i x :
  nth_error l i = Some x ->
  nth_error (update_first p f l) i = Some x
  \/ (find p l = Some x /\ nth_error (update_first p f l) i = Some (f x)).
Proof.
  revert i. induction l as [|y l IH]; intros [|i]; simpl; try discriminate.
  - intros H. injection H as ->. destruct (p x); auto.
  - intros H. destruct (p y) eqn:E; simpl; [auto|].
    destruct (IH i H) as [?|[? ?]]; auto.
Qed.

(** X4.  No run of requests removes or reorders ledger entries or touches
    a session's id, station, connector, user, expected end or creation
    time: the identities of the old ledger are a prefix of those of the new
    one, which has at most one more entry per request served. *)
Theorem ledger_is_append_only (rs : list request) (db : DB) :
  exists added,
    map identity (mock_sessions_db (serve_all rs db))
      = (map identity (mock_sessions_db db) ++ added)%list
    /\ (List.length added <= List.length rs)%nat.
Proof.
  revert db. induction rs as [|r rs IH]; intros db; simpl.
  - exists []. split; [now rewrite app_nil_r | simpl; lia].
  - destruct (IH (serve r db)) as (added & -> & Hlen).
    assert (Hstep : exists a,
               map identity (mock_sessions_db (serve r db))
                 = (map identity (mock_sessions_db db) ++ a)%list
               /\ (List.length a <= 1)%nat).
    { destruct (serve_ledger r db).
      - exists []. split; [now rewrite app_nil_r | simpl; lia].
      - exists [identity (new_session_of env d)].
        split; [now rewrite map_app | simpl; lia].
      - exists []. rewrite app_nil_r. split; [|simpl; lia].
        now apply map_update_first.
      - exists []. rewrite app_nil_r. split; [|simpl; lia].
        now apply map_update_first.
      - exists []. rewrite app_nil_r. split; [|simpl; lia].
        now apply map_update_first. }
    destruct Hstep as (a & -> & Ha).
    exists (a ++ added)%list. split; [now rewrite app_assoc|].
    rewrite length_app. lia.
Qed.

(** X5.  One request changes the status of a ledger entry, if at all, by
    reserved -> in_progress, in_progress -> completed or
    reserved -> cancelled; every entry it does not move this way is left
    exactly as it was. *)
Theorem sessions_only_move_forward (r : request) (db : DB)
    (i : nat) (s : ChargingSession.t) :
  nth_error (mock_sessions_db db) i = Some s ->
  exists s',
    nth_error (mock_sessions_db (serve r db)) i = Some s'
    /\ (s' = s
        \/ (ChargingSession.status s = "reserved"
            /\ ChargingSession.status s' = "in_progress")
        \/ (ChargingSession.status s = "in_progress"
            /\ ChargingSession.status s' = "completed")
        \/ (ChargingSession.status s = "reserved"
            /\ ChargingSession.status s' = "cancelled")).
Proof.
  intros Hi.
  destruct (serve_ledger r db) as [|env d|env id s0 Hf Hs|env k c id s0 Hf Hs
                                   |env id s0 Hf Hs].
  - eauto.
  - exists s. split; [|now left].
    rewrite nth_error_app1; [assumption|].
    apply nth_error_Some. congruence.
  - destruct (nth_error_update_first (is_session id) (started env) _ _ Hi)
      as [H|[Hx H]]; [eauto|].
    assert (s = s0) by congruence. subst s0. eauto 6.
  - destruct (nth_error_update_first (is_session id) (ended env k c) _ _ Hi)
      as [H|[Hx H]]; [eauto|].
    assert (s = s0) by congruence. subst s0. eauto 7.
  - destruct (nth_error_update_first (is_session id) (cancelled env) _ _ Hi)
      as [H|[Hx H]]; [eauto|].
    assert (s = s0) by congruence. subst s0. eauto 8.
Qed.

Lemma sessions_only_move_forward_witness :
  let db := serve (Reserve (mkCreateEnv 5 "id-1" 6 6)
                     (ChargingSessionCreate.mk "STN-001" "C-001-1" "U1" (Naive 10) (Naive 20)))
              initial_db in
  exists s s',
    nth_error (mock_sessions_db db) 0 = Some s
    /\ nth_error (mock_sessions_db (serve (Cancel (mkCancelEnv 7) "id-1") db)) 0
       = Some s'
    /\ ChargingSession.status s = "reserved"
    /\ ChargingSession.status s' = "cancelled".
Proof.
  intros db.
  destruct (@sessions_only_move_forward (Cancel (mkCancelEnv 7) "id-1") db 0 _
              eq_refl) as (s' & H & _).
  eexists _, s'. split; [reflexivity|]. split; [exact H|].
  vm_compute in H. injection H as <-. split; reflexivity.
Defined.

(** X6.  A session that is neither 'reserved' nor 'in_progress' is final:
    no run of requests changes anything in it, and it stays at its place
    in the ledger. *)
Theorem finished_sessions_are_frozen (rs : list request) (db : DB)
    (i : nat) (s : ChargingSession.t) :
  nth_error (mock_sessions_db db) i = Some s ->
  active_status (ChargingSession.status s) = false ->
  nth_error (mock_sessions_db (serve_all rs db)) i = Some s.
Proof.
  revert db. induction rs as [|r rs IH]; intros db Hi Hs; simpl;
    [assumption|].
  apply IH; [|assumption].
  assert (Hrej : forall id f s0,
             find (is_session id) (mock_sessions_db db) = Some s0 ->
             active_status (ChargingSession.status s0) = true ->
             nth_error (update_first (is_session id) f (mock_sessions_db db)) i
             = Some s).
  { intros id f s0 Hf Ha.
    destruct (nth_error_update_first (is_session id) f _ _ Hi)
      as [H|[Hx _]]; [assumption|].
    assert (s = s0) by congruence. subst s0. congruence. }
  destruct (serve_ledger r db) as [|env d|env id s0 Hf Ha|env k c id s0 Hf Ha
                                   |env id s0 Hf Ha].
  - assumption.
  - rewrite nth_error_app1; [assumption|].
    apply nth_error_Some. congruence.
  - apply Hrej with s0; [assumption | now rewrite Ha].
  - apply Hrej with s0; [assumption | now rewrite Ha].
  - apply Hrej with s0; [assumption | now rewrite Ha].
Qed.

Lemma finished_sessions_are_frozen_witness :
  let db := serve (Cancel (mkCancelEnv 7) "id-1")
              (serve (Reserve (mkCreateEnv 5 "id-1" 6 6)
                        (ChargingSessionCreate.mk "STN-001" "C-001-1" "U1" (Naive 10) (Naive 20)))
                 initial_db) in
  let rs := [Start (mkStartEnv 8 8) "id-1";
             End_ (mkEndEnv 9 9) "id-1" 1.5%float 2.5%float;
             Cancel (mkCancelEnv 10) "id-1"] in
  nth_error (mock_sessions_db (serve_all rs db)) 0
  = Some (cancelled (mkCancelEnv 7)
            (new_session_of (mkCreateEnv 5 "id-1" 6 6)
               (ChargingSessionCreate.mk "STN-001" "C-001-1" "U1" (Naive 10) (Naive 20)))).
Proof.
  intros db rs.
  exact (@finished_sessions_are_frozen rs db 0 _ eq_refl eq_refl).
Defined.

(* ===================================================================== *)
(** ** Connector status and ledger agree *)
(* ===================================================================== *)

Lemma In_update_first_found {A} (p : A -> bool) (f : A -> A) l x :
  find p l = Some x -> In (f x) (update_first p f l).
Proof.
  intros H. destruct (update_first_split p f l H) as (l1 & l2 & _ & ->).
  apply in_or_app. right. now left.
Qed.

Lemma In_update_first_keep {A} (p : A -> bool) (f : A -> A) l y :
  In y l -> In y (update_first p f l) \/ find p l = Some y.
Proof.
  induction l as [|z l IH]; simpl; [tauto|].
  destruct (p z) eqn:E; simpl.
  - intros [->|H]; auto.
  - intros [->|H]; auto. destruct (IH H); auto.
Qed.

Lemma Forall_update_first_found {A} (p : A -> bool) (f : A -> A)
    (P : A -> Prop) l :
  (forall x, find p l = Some x -> P x -> P (f x)) ->
  Forall P l -> Forall P (update_first p f l).
Proof.
  induction l as [|y l IH]; simpl; intros Hf H; [constructor|].
  inversion H as [|? ? Hy Hl]; subst.
  destruct (p y) eqn:E; constructor; auto.
Qed.

(** Reading a connector after marking one: the marked pair reads the new
    status, any other pair reads what it read before. *)
Lemma connector_status_set_inv stations sessions sessions' sid0 cid0 v sid cid st :
  connector_status (mkDB (set_connector_status stations sid0 cid0 v) sessions')
    sid cid = Some st ->
  (sid = sid0 /\ cid = cid0 /\ st = v)
  \/ ((sid, cid) <> (sid0, cid0)
      /\ connector_status (mkDB stations sessions) sid cid = Some st).
Proof.
  intros H.
  destruct (String.eqb_spec sid sid0) as [->|Hs];
    [destruct (String.eqb_spec cid cid0) as [->|Hc]|].
  - left. repeat split.
    destruct (connector_status (mkDB stations sessions) sid0 cid0) as [st0|] eqn:E.
    + rewrite (connector_status_set_same stations sessions sessions' sid0 cid0 v E)
        in H. congruence.
    + exfalso. revert H E.
      unfold connector_status, set_connector_status. simpl.
      destruct (find (is_station sid0) stations) as [s|] eqn:Es.
      * erewrite find_update_first_same; [|eassumption|].
        2:{ apply find_some in Es. apply Es. }
        simpl.
        destruct (find (is_connector cid0) (ChargingStation.connectors s)) eqn:Ec;
          [discriminate|].
        rewrite update_first_absent by assumption. now rewrite Ec.
      * rewrite update_first_absent by assumption. now rewrite Es.
  - right. split; [congruence|].
    rewrite (connector_status_set_other stations sessions) in H; [assumption|].
    congruence.
  - right. split; [congruence|].
    rewrite (connector_status_set_other stations sessions) in H; [assumption|].
    congruence.
Qed.

(** The store after a request, stations and ledger together. *)
Inductive store_step (db : DB) : DB -> Prop :=
| step_none : store_step db db
| step_reserve env d :
    passes_all env d db ->
    store_step db
      (mkDB (set_connector_status (mock_stations_db db)
               (ChargingSessionCreate.station_id d)
               (ChargingSessionCreate.connector_id d) "reserved")
            (mock_sessions_db db ++ [new_session_of env d]))
| step_start env id s :
    find (is_session id) (mock_sessions_db db) = Some s ->
    ChargingSession.status s = "reserved" ->
    store_step db
      (mkDB (set_connector_status (mock_stations_db db)
               (ChargingSession.station_id s)
               (ChargingSession.connector_id s) "occupied")
            (update_first (is_session id) (started env) (mock_sessions_db db)))
| step_end env k c id s :
    find (is_session id) (mock_sessions_db db) = Some s ->
    ChargingSession.status s = "in_progress" ->
    store_step db
      (mkDB (set_connector_status (mock_stations_db db)
               (ChargingSession.station_id s)
               (ChargingSession.connector_id s) "available")
            (update_first (is_session id) (ended env k c) (mock_sessions_db db)))
| step_cancel env id s :
    find (is_session id) (mock_sessions_db db) = Some s ->
    ChargingSession.status s = "reserved" ->
    store_step db
      (mkDB (set_connector_status (mock_stations_db db)
               (ChargingSession.station_id s)
               (ChargingSession.connector_id s) "available")
            (update_first (is_session id) (cancelled env) (mock_sessions_db db))).

Lemma serve_step r db : store_step db (serve r db).
Proof.
  destruct r as [env d|env id|env id k c|env id]; simpl.
  - destruct (create_cases env d db) as [(r0 & -> & _)|[Hp ->]]; simpl;
      now constructor.
  - rewrite start_run.
    destruct (find _ _) as [s|] eqn:E; [|constructor].
    destruct (String.eqb_spec (ChargingSession.status s) "reserved");
      [|constructor].
    now apply step_start.
  - rewrite end_run.
    destruct (find _ _) as [s|] eqn:E; [|constructor].
    destruct (String.eqb_spec (ChargingSession.status s) "in_progress");
      [|constructor].
    now apply step_end.
  - rewrite cancel_run.
    destruct (find _ _) as [s|] eqn:E; [|constructor].
    destruct (String.eqb_spec (ChargingSession.status s) "reserved");
      [|constructor].
    now apply step_cancel.
Qed.

(** A connector that is not 'available' is backed by a ledger session on
    it, reserved when the connector is 'reserved', in progress when it is
    'occupied'. *)
Definition backed (db : DB) : Prop :=
  forall sid cid st,
    connector_status db sid cid = Some st ->
    st = "available"
    \/ exists s,
         In s (mock_sessions_db db)
         /\ ChargingSession.station_id s = sid
         /\ ChargingSession.connector_id s = cid
         /\ ((st = "reserved" /\ ChargingSession.status s = "reserved")
             \/ (st = "occupied" /\ ChargingSession.status s = "in_progress")).

(** Rewriting the first session with an id keeps the backing of every
    connector other than that session's. *)
Lemma backed_elsewhere db id (f : ChargingSession.t -> ChargingSession.t)
    s0 sid cid st :
  backed db ->
  find (is_session id) (mock_sessions_db db) = Some s0 ->
  (sid, cid) <> (ChargingSession.station_id s0, ChargingSession.connector_id s0) ->
  connector_status db sid cid = Some st ->
  st = "available"
  \/ exists s,
       In s (update_first (is_session id) f (mock_sessions_db db))
       /\ ChargingSession.station_id s = sid
       /\ ChargingSession.connector_id s = cid
       /\ ((st = "reserved" /\ ChargingSession.status s = "reserved")
           \/ (st = "occupied" /\ ChargingSession.status s = "in_progress")).
Proof.
  intros Hb Hf Hne Hst.
  destruct (Hb sid cid st Hst) as [?|(s & Hin & H1 & H2 & H3)]; [now left|].
  right. exists s.
  destruct (In_update_first_keep (is_session id) f _ _ Hin) as [H|H].
  - repeat split; auto.
  - assert (s = s0) by congruence. subst s0. destruct Hne. congruence.
Qed.

Lemma backed_step db db' : backed db -> store_step db db' -> backed db'.
Proof.
  intros Hb Hstep. destruct db as [stations sessions].
  destruct Hstep as [|env d Hp|env id s0 Hf Hs|env k c id s0 Hf Hs
                     |env id s0 Hf Hs]; simpl in *; [assumption| | | |];
    intros sid cid st Hst;
    apply (connector_status_set_inv stations sessions) in Hst;
    destruct Hst as [(-> & -> & ->)|[Hne Hst]].
  - right. exists (new_session_of env d).
    split; [apply in_or_app; right; now left|]. simpl. auto.
  - destruct (Hb sid cid st Hst) as [?|(s & Hin & H)]; [now left|].
    right. exists s. split; [apply in_or_app; now left | assumption].
  - right. exists (started env s0).
    split; [now apply In_update_first_found|]. simpl. auto.
  - destruct (@backed_elsewhere _ id (started env) _ _ _ _ Hb Hf Hne Hst)
      as [?|(s & Hin & H)]; [now left|].
    right. exists s. auto.
  - now left.
  - destruct (@backed_elsewhere _ id (ended env k c) _ _ _ _ Hb Hf Hne Hst)
      as [?|(s & Hin & H)]; [now left|].
    right. exists s. auto.
  - now left.
  - destruct (@backed_elsewhere _ id (cancelled env) _ _ _ _ Hb Hf Hne Hst)
      as [?|(s & Hin & H)]; [now left|].
    right. exists s. auto.
Qed.

Lemma reachable_backed db : reachable db -> backed db.
Proof.
  induction 1 as [|r db _ IH].
  - intros sid cid st H. left.
    unfold connector_status in H. simpl in H. unfold is_station in H. simpl in H.
    repeat match type of H with
           | context [if ?b then _ else _] =>
               destruct b; unfold is_connector in H; simpl in H
           end; congruence.
  - eapply backed_step; [exact IH | apply serve_step].
Qed.

(** X7.  In every reachable store a connector's status tells what the
    ledger holds for it: 'available' means no reserved or in-progress
    session references the connector, 'reserved' means a reserved session
    does, 'occupied' means an in-progress session does; and there is no
    fourth case. *)
Theorem connector_status_reflects_ledger (db : DB) (sid cid st : string) :
  reachable db ->
  connector_status db sid cid = Some st ->
  (st = "available"
   /\ forall s, In s (mock_sessions_db db) -> active_on sid cid s = false)
  \/ (st = "reserved"
      /\ exists s, In s (mock_sessions_db db)
                   /\ ChargingSession.station_id s = sid
                   /\ ChargingSession.connector_id s = cid
                   /\ ChargingSession.status s = "reserved")
  \/ (st = "occupied"
      /\ exists s, In s (mock_sessions_db db)
                   /\ ChargingSession.station_id s = sid
                   /\ ChargingSession.connector_id s = cid
                   /\ ChargingSession.status s = "in_progress").
Proof.
  intros Hr Hst.
  pose proof (reachable_consistent Hr) as [_ _ I3 _].
  pose proof (reachable_backed Hr) as Hb.
  destruct (Hb sid cid st Hst)
    as [->|(s & Hin & H1 & H2 & [[-> H3]|[-> H3]])].
  - left. split; [reflexivity|]. intros s Hin.
    destruct (active_on sid cid s) eqn:E; [|reflexivity].
    apply active_on_true in E. destruct E as (<- & <- & Ha).
    destruct (I3 s Hin Ha) as (st & Hst' & Hne). congruence.
  - right. left. eauto 7.
  - right. right. eauto 7.
Qed.

Lemma connector_status_reflects_ledger_witness :
  let db := serve (Start (mkStartEnv 12 12) "id-1")
              (serve (Reserve (mkCreateEnv 5 "id-1" 6 6)
                        (ChargingSessionCreate.mk "STN-001" "C-001-1" "U1" (Naive 10) (Naive 20)))
                 initial_db) in
  exists s, In s (mock_sessions_db db)
            /\ ChargingSession.station_id s = "STN-001"
            /\ ChargingSession.connector_id s = "C-001-1"
            /\ ChargingSession.status s = "in_progress".
Proof.
  intros db.
  assert (Hr : reachable db) by (repeat apply reachable_step; apply reachable_init).
  destruct (@connector_status_reflects_ledger db "STN-001" "C-001-1" "occupied"
              Hr eq_refl) as [[H _]|[[H _]|[_ H]]];
    [discriminate H | discriminate H | exact H].
Defined.

(* ===================================================================== *)
(** ** When a reservation goes through *)
(* ===================================================================== *)

Lemma overlap_needs_held_connector env d db :
  consistent db ->
  fails CheckOverlap env d db ->
  exists st,
    connector_status db (ChargingSessionCreate.station_id d)
      (ChargingSessionCreate.connector_id d) = Some st
    /\ st <> "available".
Proof.
  intros [_ _ I3 _] H.
  unfold fails, check_connector_availability, bind, get_sessions, ret in H.
  cbn [fst] in H. injection H as H.
  apply availability_scan_false in H.
  destruct H as (s & Hin & H1 & H2 & H3 & _).
  apply active_status_iff in H3.
  destruct (I3 s Hin H3) as (st & Hst & Hne).
  rewrite H1, H2 in Hst. eauto.
Qed.

(** X8.  In every reachable store, a reserve request with timezone-naive
    times forming a valid window (expected_end_time after now, start_time
    before expected_end_time) on a connector whose status is 'available' is
    accepted: the ledger scan of check 6 finds nothing to object to.
    Hence no request, in any reachable store, is answered with the "not
    available during the requested time" error of that scan. *)
Theorem available_connector_accepts (db : DB) (env : CreateEnv)
    (d : ChargingSessionCreate.t) :
  reachable db ->
  (forall t e,
     ChargingSessionCreate.start_time d = Naive t ->
     ChargingSessionCreate.expected_end_time d = Naive e ->
     now env < e -> t < e ->
     connector_status db (ChargingSessionCreate.station_id d)
       (ChargingSessionCreate.connector_id d) = Some "available" ->
     exists db',
       create_charging_session env d db = (Ok (new_session_of env d), db'))
  /\ fst (create_charging_session env d db)
     <> Raise (err_overlap (ChargingSessionCreate.station_id d)
                 (ChargingSessionCreate.connector_id d)).
Proof.
  intros Hr. pose proof (reachable_consistent Hr) as Hc.
  assert (Hk : forall k,
             fails k env d db ->
             (forall j, (check_rank j < check_rank k)%nat -> passes j env d db) ->
             k <> CheckOverlap).
  { intros k Hk He ->.
    destruct (overlap_needs_held_connector Hc Hk) as (st & Hst & Hne).
    apply (proj1 (He CheckState ltac:(simpl; lia))). simpl. eauto. }
  destruct (create_run env d db) as [(k & He & [[Hf E]|[Hb E]])|[Hp E]];
    rewrite E.
  - split.
    + intros t e Ht Hend H1 H2 H3. exfalso.
      destruct k; simpl in Hf.
      * rewrite Hend in Hf. simpl in Hf. injection Hf as Hf.
        apply Z.leb_le in Hf. lia.
      * rewrite Ht, Hend in Hf. simpl in Hf. injection Hf as Hf.
        rewrite Z.geb_leb in Hf. apply Z.leb_le in Hf. lia.
      * unfold connector_status in H3. rewrite Hf in H3. discriminate.
      * destruct Hf as (station & Ha & Hb).
        unfold connector_status in H3. rewrite Ha, Hb in H3. discriminate.
      * destruct Hf as (st & Ha & Hb). congruence.
      * now apply (Hk CheckOverlap Hf He).
    + simpl. intros H. injection H as H.
      apply (check_errors_distinct d db (Hk k Hf He)). exact H.
  - split; [|discriminate].
    intros t e Ht Hend _ _ _. exfalso.
    destruct k; simpl in Hb; try contradiction.
    + rewrite Hend in Hb. discriminate.
    + rewrite Ht, Hend in Hb. discriminate.
  - split; [eauto | discriminate].
Qed.

(** After the session on C-001-1 has ended, the connector takes a new
    reservation. *)
Lemma available_connector_accepts_witness :
  let db :=
    serve (End_ (mkEndEnv 18 18) "id-1" 12.5%float 4.3%float)
      (serve (Start (mkStartEnv 12 12) "id-1")
         (serve (Reserve (mkCreateEnv 5 "id-1" 6 6)
                   (ChargingSessionCreate.mk "STN-001" "C-001-1" "U1"
                      (Naive 10) (Naive 20)))
            initial_db)) in
  let env := mkCreateEnv 19 "id-2" 19 19 in
  let d := ChargingSessionCreate.mk "STN-001" "C-001-1" "U2"
             (Naive 15) (Naive 30) in
  exists db',
    create_charging_session env d db = (Ok (new_session_of env d), db').
Proof.
  intros db env d.
  assert (Hr : reachable db) by (repeat apply reachable_step; apply reachable_init).
  apply (proj1 (available_connector_accepts env d Hr) 15 30).
  - reflexivity.
  - reflexivity.
  - simpl. lia.
  - lia.
  - reflexivity.
Defined.

(* ===================================================================== *)
(** ** Usage fields *)
(* ===================================================================== *)

(** The usage fields of a session are filled exactly when it is
    'completed'. *)
Definition usage_matches_status (s : ChargingSession.t) : Prop :=
  (ChargingSession.status s = "completed"
   /\ ChargingSession.actual_end_time s <> None
   /\ ChargingSession.kwh_consumed s <> None
   /\ ChargingSession.cost s <> None)
  \/ (ChargingSession.status s <> "completed"
      /\ ChargingSession.actual_end_time s = None
      /\ ChargingSession.kwh_consumed s = None
      /\ ChargingSession.cost s = None).

Lemma usage_ledger_step l l' :
  ledger_step l l' ->
  Forall usage_matches_status l -> Forall usage_matches_status l'.
Proof.
  intros Hstep H.
  destruct Hstep as [|env d|env id s Hf Hs|env k c id s Hf Hs|env id s Hf Hs].
  - assumption.
  - apply Forall_app. split; [assumption|].
    constructor; [|constructor]. right. simpl. repeat split. discriminate.
  - apply Forall_update_first_found; [|assumption].
    intros x Hx [(Hc & _)|(_ & H1 & H2 & H3)];
      assert (x = s) by congruence; subst x; [congruence|].
    right. simpl. repeat split; try assumption. discriminate.
  - apply Forall_update_first_found; [|assumption].
    intros x _ _. left. simpl. repeat split; discriminate.
  - apply Forall_update_first_found; [|assumption].
    intros x Hx [(Hc & _)|(_ & H1 & H2 & H3)];
      assert (x = s) by congruence; subst x; [congruence|].
    right. simpl. repeat split; try assumption. discriminate.
Qed.

(** X9.  In every reachable store, actual_end_time, kwh_consumed and cost
    are all set on a session whose status is 'completed' and all [None] on
    every other session: only [end_charging_session] writes them, and it
    writes all three. *)
Theorem usage_recorded_on_completion_only (db : DB) (s : ChargingSession.t) :
  reachable db ->
  In s (mock_sessions_db db) ->
  (ChargingSession.status s = "completed" ->
   exists t k c,
     ChargingSession.actual_end_time s = Some t
     /\ ChargingSession.kwh_consumed s = Some k
     /\ ChargingSession.cost s = Some c)
  /\ (ChargingSession.status s <> "completed" ->
      ChargingSession.actual_end_time s = None
      /\ ChargingSession.kwh_consumed s = None
      /\ ChargingSession.cost s = None).
Proof.
  intros Hr Hin.
  assert (H : Forall usage_matches_status (mock_sessions_db db)).
  { clear s Hin. induction Hr as [|r db _ IH]; [constructor|].
    eapply usage_ledger_step; [apply serve_ledger | exact IH]. }
  rewrite Forall_forall in H.
  destruct (H s Hin) as [(Hc & H1 & H2 & H3)|(Hc & H1 & H2 & H3)].
  - split; [|congruence]. intros _.
    destruct (ChargingSession.actual_end_time s) as [t|]; [|congruence].
    destruct (ChargingSession.kwh_consumed s) as [k|]; [|congruence].
    destruct (ChargingSession.cost s) as [c|]; [|congruence].
    now exists t, k, c.
  - split; [congruence | auto].
Qed.

Lemma usage_recorded_on_completion_only_witness :
  let db :=
    serve (End_ (mkEndEnv 18 19) "id-1" 12.5%float 4.3%float)
      (serve (Start (mkStartEnv 12 12) "id-1")
         (serve (Reserve (mkCreateEnv 5 "id-1" 6 6)
                   (ChargingSessionCreate.mk "STN-001" "C-001-1" "U1" (Naive 10) (Naive 20)))
            initial_db)) in
  exists s t k c,
    In s (mock_sessions_db db)
    /\ ChargingSession.actual_end_time s = Some t
    /\ ChargingSession.kwh_consumed s = Some k
    /\ ChargingSession.cost s = Some c.
Proof.
  intros db.
  assert (Hr : reachable db) by (repeat apply reachable_step; apply reachable_init).
  pose (s := ended (mkEndEnv 18 19) 12.5%float 4.3%float
               (started (mkStartEnv 12 12)
                  (new_session_of (mkCreateEnv 5 "id-1" 6 6)
                     (ChargingSessionCreate.mk "STN-001" "C-001-1" "U1" (Naive 10) (Naive 20))))).
  assert (Hin : In s (mock_sessions_db db)) by (left; reflexivity).
  destruct (proj1 (usage_recorded_on_completion_only s Hr Hin) eq_refl)
    as (t & k & c & H).
  exists s, t, k, c. split; [exact Hin | exact H].
Defined.

(* ===================================================================== *)
(** ** Windows inside a free window *)
(* ===================================================================== *)

(** X10.  If [check_connector_availability] finds a window free on a
    connector, it finds every window contained in it free as well. *)
Theorem free_window_contains_free_windows (db : DB) (sid cid : string)
    (a b a' b' : naive_datetime) :
  fst (check_connector_availability sid cid a b db) = Ok true ->
  a <= a' -> b' <= b ->
  fst (check_connector_availability sid cid a' b' db) = Ok true.
Proof.
  unfold check_connector_availability, bind, get_sessions, ret. cbn [fst].
  intros H Ha Hb. injection H as H. f_equal.
  destruct (availability_scan (mock_sessions_db db) sid cid a' b') eqn:E;
    [reflexivity|].
  apply availability_scan_false in E.
  destruct E as (s & Hin & H1 & H2 & H3 & H4).
  assert (Hf : availability_scan (mock_sessions_db db) sid cid a b = false).
  { apply availability_scan_false. exists s.
    split; [assumption|]. repeat split; try assumption. lia. }
  congruence.
Qed.

Lemma free_window_contains_free_windows_witness :
  let db := mkDB seed_stations
              [new_session_of (mkCreateEnv 5 "id-1" 6 6)
                 (ChargingSessionCreate.mk "STN-001" "C-001-1" "U1" (Naive 10) (Naive 20))] in
  fst (check_connector_availability "STN-001" "C-001-1" 25 35 db) = Ok true.
Proof.
  intros db.
  apply (@free_window_contains_free_windows db "STN-001" "C-001-1" 20 40 25 35);
    [reflexivity | lia | lia].
Defined.

(* ===================================================================== *)
(** ** Round trips *)
(* ===================================================================== *)

Lemma update_first_twice {A} (p : A -> bool) (f g : A -> A) l :
  (forall x, find p l = Some x -> p (f x) = true) ->
  update_first p g (update_first p f l) = update_first p (fun x => g (f x)) l.
Proof.
  induction l as [|y l IH]; simpl; intros H; [reflexivity|].
  destruct (p y) eqn:E; simpl.
  - now rewrite (H y eq_refl).
  - rewrite E. f_equal. auto.
Qed.

Lemma update_first_fixed {A} (p : A -> bool) (f : A -> A) l :
  (forall x, find p l = Some x -> f x = x) -> update_first p f l = l.
Proof.
  induction l as [|y l IH]; simpl; intros H; [reflexivity|].
  destruct (p y); f_equal; auto.
Qed.

Lemma update_first_ext {A} (p : A -> bool) (f g : A -> A) l :
  (forall x, f x = g x) -> update_first p f l = update_first p g l.
Proof.
  intros H. induction l as [|y l IH]; simpl; [reflexivity|].
  destruct (p y); congruence.
Qed.

Lemma find_last {A} (p : A -> bool) l x :
  find p l = None -> p x = true -> find p (l ++ [x]) = Some x.
Proof.
  induction l as [|y l IH]; simpl; intros H Hx; [now rewrite Hx|].
  destruct (p y); [discriminate | auto].
Qed.

Lemma update_first_last {A} (p : A -> bool) (f : A -> A) l x :
  find p l = None -> p x = true ->
  update_first p f (l ++ [x]) = (l ++ [f x])%list.
Proof.
  induction l as [|y l IH]; simpl; intros H Hx; [now rewrite Hx|].
  destruct (p y); [discriminate|]. f_equal. auto.
Qed.

Lemma find_session_absent l id :
  (forall x, In x l -> ChargingSession.session_id x <> id) ->
  find (is_session id) l = None.
Proof.
  intros H. destruct (find (is_session id) l) as [s|] eqn:E; [|reflexivity].
  destruct (find_some _ _ E) as [Hin Hid]. apply String.eqb_eq in Hid.
  now destruct (H s Hin).
Qed.

(** Marking a connector twice is marking it once, with the later status. *)
Lemma set_connector_status_twice stations sid cid v w :
  set_connector_status (set_connector_status stations sid cid v) sid cid w
  = set_connector_status stations sid cid w.
Proof.
  unfold set_connector_status.
  rewrite update_first_twice.
  - apply update_first_ext. intros station.
    unfold ChargingStation.set_connectors. simpl. f_equal.
    rewrite update_first_twice.
    + now apply update_first_ext.
    + intros c Hc. apply find_some in Hc. apply Hc.
  - intros station Hs. apply find_some in Hs. apply Hs.
Qed.

(** Marking a connector with the status it has changes nothing. *)
Lemma set_connector_status_same stations sessions sid cid v :
  connector_status (mkDB stations sessions) sid cid = Some v ->
  set_connector_status stations sid cid v = stations.
Proof.
  unfold connector_status, set_connector_status. simpl. intros H.
  apply update_first_fixed. intros station Hs. rewrite Hs in H.
  destruct station as [n0 lc a o ip cs si os]. simpl in *.
  unfold ChargingStation.set_connectors. simpl. f_equal.
  apply update_first_fixed. intros c Hc. rewrite Hc in H.
  injection H as <-. now destruct c.
Qed.

Section RoundTrips.
Variables (env : CreateEnv) (d : ChargingSessionCreate.t) (db : DB).
Hypothesis Hpass : passes_all env d db.
Hypothesis Hfresh :
  forall x, In x (mock_sessions_db db) ->
            ChargingSession.session_id x <> uuid4 env.

Let s := new_session_of env d.

Lemma round_trip_available :
  connector_status db (ChargingSessionCreate.station_id d)
    (ChargingSessionCreate.connector_id d) = Some "available".
Proof.
  destruct (pass_station (Hpass CheckStation)) as [station Hs].
  destruct (pass_connector Hs (Hpass CheckConnector)) as [c Hc].
  pose proof (pass_state Hs Hc (Hpass CheckState)) as Hav.
  unfold connector_status. now rewrite Hs, Hc, Hav.
Qed.

Lemma round_trip_reserved :
  create_charging_session env d db =
  (Ok s, mkDB (set_connector_status (mock_stations_db db)
                 (ChargingSessionCreate.station_id d)
                 (ChargingSessionCreate.connector_id d) "reserved")
              (mock_sessions_db db ++ [s])).
Proof.
  destruct (create_run env d db) as [(k & _ & [[Hk _]|[Hk _]])|[_ E]];
    [now destruct (proj1 (Hpass k)) | now destruct (proj2 (Hpass k))
    | exact E].
Qed.

Lemma round_trip_find :
  find (is_session (uuid4 env)) (mock_sessions_db db ++ [s]) = Some s.
Proof.
  apply find_last; [now apply find_session_absent|].
  unfold is_session, s. simpl. apply String.eqb_refl.
Qed.
End RoundTrips.

(** X11.  Reserving and then cancelling that reservation gives the
    inventory back exactly as it was: when a reserve request passes all
    checks and its new id is not yet in the ledger, a cancel of that id
    succeeds, the station list equals the one before the reservation, and
    the ledger is the old one followed by one session, which has the new
    id, the request's station, connector and user, status 'cancelled' and
    updated_at set by the cancel. *)
Theorem reserve_then_cancel_restores_inventory
    (env : CreateEnv) (d : ChargingSessionCreate.t) (cenv : CancelEnv) (db : DB) :
  passes_all env d db ->
  (forall x, In x (mock_sessions_db db) ->
             ChargingSession.session_id x <> uuid4 env) ->
  exists s db1 s',
    create_charging_session env d db = (Ok s, db1)
    /\ ChargingSession.status s = "reserved"
    /\ connector_status db1 (ChargingSessionCreate.station_id d)
         (ChargingSessionCreate.connector_id d) = Some "reserved"
    /\ cancel_charging_session cenv (uuid4 env) db1
       = (Ok tt, mkDB (mock_stations_db db) (mock_sessions_db db ++ [s']))
    /\ ChargingSession.status s' = "cancelled"
    /\ ChargingSession.updated_at s' = cancel_utcnow_updated_at cenv
    /\ ChargingSession.session_id s' = uuid4 env
    /\ ChargingSession.station_id s' = ChargingSessionCreate.station_id d
    /\ ChargingSession.connector_id s' = ChargingSessionCreate.connector_id d
    /\ ChargingSession.user_id s' = ChargingSessionCreate.user_id d
    /\ connector_status
         (mkDB (mock_stations_db db) (mock_sessions_db db ++ [s']))
         (ChargingSessionCreate.station_id d)
         (ChargingSessionCreate.connector_id d) = Some "available".
Proof.
  intros Hp Hfresh.
  exists (new_session_of env d). eexists.
  exists (cancelled cenv (new_session_of env d)).
  split; [now apply round_trip_reserved|].
  split; [reflexivity|].
  pose proof (round_trip_available Hp) as Hav.
  split.
  { destruct db as [stations sessions].
    eapply connector_status_set_same. exact Hav. }
  split; [|repeat split; exact Hav].
  rewrite cancel_run. simpl.
  rewrite (@round_trip_find env d db Hfresh). simpl.
  rewrite set_connector_status_twice.
  destruct db as [stations sessions]. simpl in *.
  rewrite (set_connector_status_same stations sessions _ _ Hav).
  rewrite update_first_last; [reflexivity| |].
  - now apply find_session_absent.
  - unfold is_session. simpl. apply String.eqb_refl.
Qed.

Lemma reserve_then_cancel_restores_inventory_witness :
  let env := mkCreateEnv 5 "id-1" 6 6 in
  let d := ChargingSessionCreate.mk "STN-001" "C-001-2" "U1"
             (Naive 10) (Naive 20) in
  exists s db1 s',
    create_charging_session env d initial_db = (Ok s, db1)
    /\ cancel_charging_session (mkCancelEnv 7) "id-1" db1
       = (Ok tt, mkDB seed_stations [s'])
    /\ ChargingSession.status s' = "cancelled".
Proof.
  intros env d.
  assert (Hp : passes_all env d initial_db) by (unfold passes_all; eval_checks).
  destruct (@reserve_then_cancel_restores_inventory env d (mkCancelEnv 7)
              initial_db Hp)
    as (s & db1 & s' & H1 & _ & _ & H2 & H3 & _).
  - intros x [].
  - exists s, db1, s'. repeat split; assumption.
Defined.

(** X12.  A whole charging cycle gives the inventory back as well: after a
    reserve request that passes all checks with an id not yet in the
    ledger, start and then end of that id both succeed; the station list is
    then the one before the reservation and the ledger is the old one
    followed by the session, 'completed', with the reported kwh and cost. *)
Theorem charging_cycle_restores_inventory
    (env : CreateEnv) (d : ChargingSessionCreate.t)
    (senv : StartEnv) (eenv : EndEnv) (kwh cost : float) (db : DB) :
  passes_all env d db ->
  (forall x, In x (mock_sessions_db db) ->
             ChargingSession.session_id x <> uuid4 env) ->
  let s1 := new_session_of env d in
  let s2 := started senv s1 in
  let s3 := ended eenv kwh cost s2 in
  exists db1 db2,
    create_charging_session env d db = (Ok s1, db1)
    /\ start_charging_session senv (uuid4 env) db1 = (Ok s2, db2)
    /\ end_charging_session eenv (uuid4 env) kwh cost db2
       = (Ok s3, mkDB (mock_stations_db db) (mock_sessions_db db ++ [s3]))
    /\ ChargingSession.status s3 = "completed"
    /\ ChargingSession.kwh_consumed s3 = Some kwh
    /\ ChargingSession.cost s3 = Some cost.
Proof.
  intros Hp Hfresh s1 s2 s3. subst s1 s2 s3.
  assert (Habs : find (is_session (uuid4 env)) (mock_sessions_db db) = None)
    by now apply find_session_absent.
  assert (Hid : forall x, ChargingSession.session_id x = uuid4 env ->
                          is_session (uuid4 env) x = true)
    by (intros x Hx; unfold is_session; rewrite Hx; apply String.eqb_refl).
  eexists _, _. split; [now apply round_trip_reserved|].
  split.
  { rewrite start_run. simpl.
    rewrite (@round_trip_find env d db Hfresh). simpl. reflexivity. }
  split; [|repeat split].
  rewrite end_run. simpl.
  rewrite update_first_last by (auto using Hid).
  rewrite find_last by (auto using Hid). simpl.
  rewrite !set_connector_status_twice.
  destruct db as [stations sessions]. simpl in *.
  rewrite (set_connector_status_same stations sessions _ _
             (round_trip_available Hp)).
  rewrite update_first_last by (auto using Hid). reflexivity.
Qed.

Lemma charging_cycle_restores_inventory_witness :
  let env := mkCreateEnv 5 "id-1" 6 6 in
  let d := ChargingSessionCreate.mk "STN-001" "C-001-1" "U1" (Naive 10) (Naive 20) in
  let s3 := ended (mkEndEnv 18 18) 12.5%float 4.3%float
              (started (mkStartEnv 12 12) (new_session_of env d)) in
  exists db1 db2,
    create_charging_session env d initial_db = (Ok (new_session_of env d), db1)
    /\ start_charging_session (mkStartEnv 12 12) "id-1" db1
       = (Ok (started (mkStartEnv 12 12) (new_session_of env d)), db2)
    /\ end_charging_session (mkEndEnv 18 18) "id-1" 12.5%float 4.3%float db2
       = (Ok s3, mkDB seed_stations [s3]).
Proof.
  intros env d s3.
  assert (Hp : passes_all env d initial_db) by (unfold passes_all; eval_checks).
  destruct (@charging_cycle_restores_inventory env d (mkStartEnv 12 12)
              (mkEndEnv 18 18) 12.5%float 4.3%float initial_db Hp)
    as (db1 & db2 & H1 & H2 & H3 & _).
  - intros x [].
  - exists db1, db2. repeat split; assumption.
Defined.

(* ===================================================================== *)
(** ** Competing reservations, one after the other *)
(* ===================================================================== *)

Definition accepted (r : request) (db : DB) : bool :=
  match respond r db with
  | Accepted => true
  | _ => false
  end.

(** How many requests of a run are accepted, each being served in the
    store the previous ones left. *)
Fixpoint accepted_count (rs : list request) (db : DB) : nat :=
  match rs with
  | [] => 0
  | r :: rest =>
      ((if accepted r db then 1 else 0) + accepted_count rest (serve r db))%nat
  end.

(** [r] is a reserve request for the given connector. *)
Definition reserves_connector (sid cid : string) (r : request) : Prop :=
  match r with
  | Reserve _ d =>
      ChargingSessionCreate.station_id d = sid
      /\ ChargingSessionCreate.connector_id d = cid
  | _ => False
  end.

Lemma held_connector_rejects env d db s :
  consistent db ->
  In s (mock_sessions_db db) ->
  active_on (ChargingSessionCreate.station_id d)
    (ChargingSessionCreate.connector_id d) s = true ->
  create_charging_session env d db
    = (fst (create_charging_session env d db), db)
  /\ accepted (Reserve env d) db = false.
Proof.
  intros [_ _ I3 _] Hin Ha.
  apply active_on_true in Ha. destruct Ha as (H1 & H2 & Ha).
  destruct (I3 s Hin Ha) as (st & Hst & Hne). rewrite H1, H2 in Hst.
  unfold accepted. simpl.
  destruct (create_cases env d db) as [(r & E & Hr)|[Hp _]].
  - rewrite E. split; [reflexivity|]. simpl.
    destruct r; try reflexivity. now destruct (Hr a).
  - destruct (proj1 (Hp CheckState)). simpl. eauto.
Qed.

Lemma held_connector_accepts_none sid cid rs db s :
  consistent db ->
  In s (mock_sessions_db db) ->
  active_on sid cid s = true ->
  Forall (reserves_connector sid cid) rs ->
  accepted_count rs db = 0%nat.
Proof.
  intros Hc Hin Ha Hrs. induction Hrs as [|r rs Hr _ IH]; [reflexivity|].
  destruct r as [env d| | |]; try now destruct Hr.
  destruct Hr as [<- <-].
  destruct (@held_connector_rejects env d db s Hc Hin Ha) as (E & Hacc).
  simpl. rewrite Hacc, E. simpl. exact IH.
Qed.

(** X13.  Starting from any reachable store, of any number of reserve
    requests for one connector served one after the other, with nothing
    else in between, at most one is accepted, whatever their windows. *)
Theorem competing_reservations_one_winner (sid cid : string)
    (rs : list request) (db : DB) :
  reachable db ->
  Forall (reserves_connector sid cid) rs ->
  (accepted_count rs db <= 1)%nat.
Proof.
  intros Hr Hrs. pose proof (reachable_consistent Hr) as Hc. clear Hr.
  revert db Hc. induction Hrs as [|r rs Hr Hrs IH]; intros db Hc;
    [simpl; lia|].
  destruct r as [env d| | |]; try now destruct Hr.
  destruct Hr as [<- <-]. simpl. unfold accepted. simpl.
  destruct (create_cases env d db) as [(r0 & E & Hr0)|[Hp E]]; rewrite E; simpl.
  - destruct r0; simpl; try now apply IH. now destruct (Hr0 a).
  - rewrite (@held_connector_accepts_none
               (ChargingSessionCreate.station_id d)
               (ChargingSessionCreate.connector_id d) rs _
               (new_session_of env d)); [lia| | | |assumption].
    + now apply consistent_reserve.
    + simpl. apply in_or_app. right. now left.
    + unfold active_on. simpl. now rewrite !String.eqb_refl.
Qed.

(** Three requests for C-002-1 with disjoint windows: only the first one
    gets the connector. *)
Lemma competing_reservations_one_winner_witness :
  let rs := [Reserve (mkCreateEnv 1 "a" 1 1)
               (ChargingSessionCreate.mk "STN-002" "C-002-1" "U1" (Naive 10) (Naive 20));
             Reserve (mkCreateEnv 2 "b" 2 2)
               (ChargingSessionCreate.mk "STN-002" "C-002-1" "U2" (Naive 30) (Naive 40));
             Reserve (mkCreateEnv 3 "c" 3 3)
               (ChargingSessionCreate.mk "STN-002" "C-002-1" "U3" (Naive 50) (Naive 60))] in
  (accepted_count rs initial_db <= 1)%nat.
Proof.
  intros rs.
  apply (@competing_reservations_one_winner "STN-002" "C-002-1" rs initial_db
           reachable_init).
  repeat constructor.
Defined.

(* ===================================================================== *)
(** ** What a listing can contain *)
(* ===================================================================== *)

Definition connector_of (s : ChargingSession.t) : string * string :=
  (ChargingSession.station_id s, ChargingSession.connector_id s).

Lemma distinct_connectors (q : ChargingSession.t -> bool) l :
  (forall sid cid, (List.length (filter (active_on sid cid) l) <= 1)%nat) ->
  (forall x, q x = true -> active_status (ChargingSession.status x) = true) ->
  NoDup (map connector_of (filter q l)).
Proof.
  intros Hone Hq. induction l as [|x l IH]; simpl; [constructor|].
  assert (Hl : forall sid cid,
             (List.length (filter (active_on sid cid) l) <= 1)%nat).
  { intros sid cid. specialize (Hone sid cid). simpl in Hone.
    destruct (active_on sid cid x); simpl in Hone; lia. }
  destruct (q x) eqn:E; [|auto]. simpl. constructor; [|auto].
  intros Hin. apply in_map_iff in Hin. destruct Hin as (y & Hy & Hin).
  apply filter_In in Hin. destruct Hin as [Hin Hqy].
  unfold connector_of in Hy. injection Hy as H1 H2.
  specialize (Hone (ChargingSession.station_id x)
                   (ChargingSession.connector_id x)).
  simpl in Hone. rewrite (active_on_self x (Hq x E)) in Hone. simpl in Hone.
  assert (Hy : active_on (ChargingSession.station_id x)
                 (ChargingSession.connector_id x) y = true)
    by (apply active_on_true; auto).
  pose proof (filter_hit _ _ y Hin Hy). lia.
Qed.

(** X14.  In every reachable store the sessions listed for a user sit on
    pairwise different connectors: nobody holds two reserved or
    in-progress sessions on one connector. *)
Theorem listed_sessions_hold_distinct_connectors (db : DB) (user_id : string) :
  reachable db ->
  exists listed,
    get_user_sessions user_id db = (Ok listed, db)
    /\ NoDup (map connector_of listed).
Proof.
  intros Hr. pose proof (reachable_consistent Hr) as [_ I2 _ _].
  eexists. split; [reflexivity|].
  apply distinct_connectors; [exact I2|].
  intros x H. apply andb_true_iff in H. apply H.
Qed.

Lemma listed_sessions_hold_distinct_connectors_witness :
  let db :=
    serve (Reserve (mkCreateEnv 2 "b" 2 2)
             (ChargingSessionCreate.mk "STN-001" "C-001-2" "U1" (Naive 10) (Naive 20)))
      (serve (Reserve (mkCreateEnv 1 "a" 1 1)
                (ChargingSessionCreate.mk "STN-001" "C-001-1" "U1" (Naive 10) (Naive 20)))
         initial_db) in
  exists listed,
    get_user_sessions "U1" db = (Ok listed, db)
    /\ NoDup (map connector_of listed).
Proof.
  intros db.
  apply listed_sessions_hold_distinct_connectors.
  repeat apply reachable_step. apply reachable_init.
Defined.
